(** * Process analysis of labml_app: ingestion, live table, zero-cpu cache

    Shallow embedding of
    [app/server/labml_app/analyses/computers/process.py]
    ([ProcessAnalysis.track], [get_tracking], [get_zero_cpu_processes],
    [get_process] and the detail route), with the properties of the
    specification proved about it.

    Conventions of the embedding
    - Python [dict]s that are only looked up by key (the attribute maps,
      the GPU map) are [gmap string _]; dicts that are iterated
      ([tracking], the batch, [res], [zero_cpu_processes]) are association
      lists in insertion order, updated by [dict_set].
    - Python floats are the rationals they denote (finite values only).
    - The record dicts built by [get_tracking] are mutable objects shared
      between [res], [zero_cpu_processes], [ret] and [summary]; they live
      in an explicit heap and the dicts hold locations.
    - Exceptions are the [Raise] case of [result]. *)

From Stdlib Require Import QArith Ascii.
From stdpp Require Import gmap strings list fin_maps sorting.

Local Open Scope string_scope.
Local Open Scope list_scope.

(** ** Python values, exceptions *)

(** The values that travel in sample payloads and attribute maps:
    numbers (floats, ints and bools, as rationals) and strings. *)
Inductive pyval : Type :=
| PNum (q : Q)
| PStr (s : string).

(** Python truthiness: a number is true unless it equals zero, a string
    unless it is empty. *)
Definition truthy (v : pyval) : bool :=
  match v with
  | PNum q => negb (Qeq_bool q 0)
  | PStr s => negb (String.eqb s "")
  end.

Inductive exn : Type :=
| KeyError (k : string)
| IndexError.

Inductive result (A : Type) : Type :=
| Ok (a : A)
| Raise (e : exn).
Arguments Ok {A} a.
Arguments Raise {A} e.

Definition bind {A B : Type} (r : result A) (f : A -> result B) : result B :=
  match r with
  | Ok a => f a
  | Raise e => Raise e
  end.

Notation "x <- r ;;; k" := (bind r (fun x => k))
  (at level 100, r at next level, right associativity).

(** ** Strings: [split], [join], slices, [in] *)

Definition dot : ascii := "."%char.

(** [s.split('.')]: never empty, one more segment than there are dots. *)
Fixpoint split_dot (s : string) : list string :=
  match s with
  | EmptyString => [""]
  | String c s' =>
      if Ascii.eqb c dot then "" :: split_dot s'
      else match split_dot s' with
           | h :: t => String c h :: t
           | [] => [String c ""]
           end
  end.

(** ['.'.join(l)] *)
Fixpoint join_dot (l : list string) : string :=
  match l with
  | [] => ""
  | [x] => x
  | x :: l' => x +:+ String dot (join_dot l')
  end.

(** [l[:-1]] and [l[-1]] *)
Definition but_last (l : list string) : list string := removelast l.

Definition last_seg (l : list string) : result string :=
  match l with
  | [] => Raise IndexError
  | _ => Ok (List.last l "")
  end.

(** [l[0]] *)
Definition first_seg (l : list string) : result string :=
  match l with
  | [] => Raise IndexError
  | x :: _ => Ok x
  end.

(** [l[i:j]] *)
Definition slice (i j : nat) (l : list string) : list string :=
  take (j - i) (drop i l).

(** [p in s] for strings: [p] occurs in [s] as a substring. *)
Fixpoint contains (p s : string) : bool :=
  String.prefix p s ||
  match s with
  | EmptyString => false
  | String _ s' => contains p s'
  end.

(** ** Insertion-ordered dictionaries *)

Section Dict.
Context {V : Type}.

(** [d.get(k)] / [k in d] *)
Fixpoint dict_get (k : string) (d : list (string * V)) : option V :=
  match d with
  | [] => None
  | (k', v) :: d' => if String.eqb k k' then Some v else dict_get k d'
  end.

Definition dict_mem (k : string) (d : list (string * V)) : bool :=
  match dict_get k d with Some _ => true | None => false end.

(** [d[k] = v]: overwrite in place when the key exists, append
    otherwise. *)
Fixpoint dict_set (k : string) (v : V) (d : list (string * V))
  : list (string * V) :=
  match d with
  | [] => [(k, v)]
  | (k', v') :: d' =>
      if String.eqb k k' then (k, v) :: d' else (k', v') :: dict_set k v d'
  end.

(** [d[k]], raising [KeyError] *)
Definition dict_at (k : string) (d : list (string * V)) : result V :=
  match dict_get k d with
  | Some v => Ok v
  | None => Raise (KeyError k)
  end.
End Dict.

(** ** Data model *)

(** [ALMOST_ZERO = 1.0E-2]: the double nearest to one hundredth. *)
Definition ALMOST_ZERO : Q := 5764607523034235 # 576460752303423488.

Definition SERIES_NAMES : list string :=
  ["rss"; "vms"; "cpu"; "threads"; "user"; "system"].

(** A sample payload of the ingestion batch ([SeriesModel]): [s['value']]
    is what [track] reads, the rest is forwarded untouched. *)
Record Payload : Type := mkPayload {
  p_step : list Q;
  p_value : list pyval
}.

(** The detail dict of a loaded series: the smoothed sequence, and the
    ['name'] entry that the queries attach afterwards.  Its other
    entries are not read by this module. *)
Record Detail : Type := mkDetail {
  smoothed : list Q;
  d_name : option pyval
}.

(** What [Series().load(track)] exposes to this module. *)
Record Series : Type := mkSeries {
  summary_mean : Q;
  detail : Detail
}.

(** The per-process record of the live table: the dict with keys
    [process_id], [dead], [pid], [name], [is_zero_cpu] and, once attached,
    [cpu] and [rss]. *)
Record ProcRec : Type := mkProcRec {
  process_id : string;
  r_dead : pyval;
  r_pid : pyval;
  r_name : pyval;
  is_zero_cpu : bool;
  cpu : option Detail;
  rss : option Detail
}.

Global Instance ProcRec_inhabited : Inhabited ProcRec :=
  populate (mkProcRec "" (PNum 0) (PNum 0) (PStr "") false None None).

Definition set_is_zero_cpu (b : bool) (r : ProcRec) : ProcRec :=
  mkProcRec (process_id r) (r_dead r) (r_pid r) (r_name r) b (cpu r) (rss r).

Definition set_cpu (d : Detail) (r : ProcRec) : ProcRec :=
  mkProcRec (process_id r) (r_dead r) (r_pid r) (r_name r) (is_zero_cpu r)
            (Some d) (rss r).

Definition set_rss (d : Detail) (r : ProcRec) : ProcRec :=
  mkProcRec (process_id r) (r_dead r) (r_pid r) (r_name r) (is_zero_cpu r)
            (cpu r) (Some d).

(** [r[suffix] = d], for the two suffixes that reach the assignment. *)
Definition set_metric (suffix : string) (d : Detail) (r : ProcRec) : ProcRec :=
  if String.eqb suffix "cpu" then set_cpu d r else set_rss d r.

(** [d['name'] = v] *)
Definition set_d_name (v : pyval) (d : Detail) : Detail :=
  mkDetail (smoothed d) (Some v).

(** The record returned by the detail query. *)
Record ProcDetail : Type := mkProcDetail {
  pd_process_id : string;
  pd_name : pyval;
  pd_create_time : pyval;
  pd_cmdline : pyval;
  pd_exe : pyval;
  pd_pid : pyval;
  pd_ppid : pyval;
  pd_dead : pyval;
  pd_series : list Detail
}.

(** [s in l] for a list of strings *)
Definition str_in (s : string) (l : list string) : bool :=
  existsb (String.eqb s) l.

(** [m.get(k, dflt)] on an attribute map *)
Definition attr_get (m : gmap string pyval) (k : string) (dflt : pyval) : pyval :=
  default dflt (m !! k).

(** [k in m] on an attribute map *)
Definition attr_mem (m : gmap string pyval) (k : string) : bool :=
  match m !! k with Some _ => true | None => false end.

(** [s['value'][0]] *)
Definition value0 (s : Payload) : result pyval :=
  match p_value s with
  | [] => Raise IndexError
  | v :: _ => Ok v
  end.

(** ** Stable descending sort

    [l.sort(key=..., reverse=True)] on the list decorated with its keys:
    descending by key, records of equal key in their original order. *)
Section Sort.
Context {A : Type}.

Fixpoint insert_desc (x : Q * A) (l : list (Q * A)) : list (Q * A) :=
  match l with
  | [] => [x]
  | y :: l' =>
      if Qle_bool (fst y) (fst x) then x :: y :: l'
      else y :: insert_desc x l'
  end.

Definition sort_desc (l : list (Q * A)) : list (Q * A) :=
  foldr insert_desc [] l.

(** Decorate with the keys, all computed before any comparison; the
    first key that raises aborts the sort. *)
Fixpoint decorate (key : A -> result Q) (l : list A) : result (list (Q * A)) :=
  match l with
  | [] => Ok []
  | x :: l' =>
      k <- key x ;;;
      kl <- decorate key l' ;;;
      Ok ((k, x) :: kl)
  end.

Definition sort_by_key_desc (key : A -> result Q) (l : list A) : result (list A) :=
  kl <- decorate key l ;;;
  Ok ((sort_desc kl).*2).

(** The order of the decorated list after sorting. *)
Definition key_ge (a b : Q * A) : Prop := (fst b <= fst a)%Q.
End Sort.

(** [s['cpu']['smoothed'][-1]], the ranking key *)
Definition last_smoothed_cpu (r : ProcRec) : result Q :=
  match cpu r with
  | None => Raise (KeyError "cpu")
  | Some d =>
      match smoothed d with
      | [] => Raise IndexError
      | q :: sm => Ok (List.last (q :: sm) 0%Q)
      end
  end.

(** ** The process model and its operations *)

Section Process.

(** [COMPUTEREnums.PROCESS], the analysis-type prefix of the keys of this
    analysis (declared in [labml_app.enums]). *)
Variable PROCESS : string.

(** The stored form of a series ([SeriesModel] held in [tracking]), with
    the collaborators of [..series] and [..series_collection]:
    [Series().load(track)], the truth value of a stored series, and
    [SeriesCollection.track], which appends a batch to the store. *)
Variable Track : Type.
Variable load : Track -> Series.
Variable track_truthy : Track -> bool.
Variable series_track :
  list (string * Track) -> list (string * Payload) -> list (string * Track).

Record ProcessModel : Type := mkProcessModel {
  names : gmap string pyval;
  exes : gmap string pyval;
  cmdlines : gmap string pyval;
  create_times : gmap string pyval;
  pids : gmap string pyval;
  ppids : gmap string pyval;
  dead : gmap string pyval;
  gpu_processes : gmap string (gset string);
  zero_cpu_processes : list (string * ProcRec);
  tracking : list (string * Track)
}.

Definition defaults : ProcessModel :=
  mkProcessModel ∅ ∅ ∅ ∅ ∅ ∅ ∅ ∅ [] [].

Definition set_names (m : gmap string pyval) (p : ProcessModel) :=
  mkProcessModel m (exes p) (cmdlines p) (create_times p) (pids p) (ppids p)
    (dead p) (gpu_processes p) (zero_cpu_processes p) (tracking p).
Definition set_exes (m : gmap string pyval) (p : ProcessModel) :=
  mkProcessModel (names p) m (cmdlines p) (create_times p) (pids p) (ppids p)
    (dead p) (gpu_processes p) (zero_cpu_processes p) (tracking p).
Definition set_cmdlines (m : gmap string pyval) (p : ProcessModel) :=
  mkProcessModel (names p) (exes p) m (create_times p) (pids p) (ppids p)
    (dead p) (gpu_processes p) (zero_cpu_processes p) (tracking p).
Definition set_create_times (m : gmap string pyval) (p : ProcessModel) :=
  mkProcessModel (names p) (exes p) (cmdlines p) m (pids p) (ppids p)
    (dead p) (gpu_processes p) (zero_cpu_processes p) (tracking p).
Definition set_pids (m : gmap string pyval) (p : ProcessModel) :=
  mkProcessModel (names p) (exes p) (cmdlines p) (create_times p) m (ppids p)
    (dead p) (gpu_processes p) (zero_cpu_processes p) (tracking p).
Definition set_ppids (m : gmap string pyval) (p : ProcessModel) :=
  mkProcessModel (names p) (exes p) (cmdlines p) (create_times p) (pids p) m
    (dead p) (gpu_processes p) (zero_cpu_processes p) (tracking p).
Definition set_dead (m : gmap string pyval) (p : ProcessModel) :=
  mkProcessModel (names p) (exes p) (cmdlines p) (create_times p) (pids p)
    (ppids p) m (gpu_processes p) (zero_cpu_processes p) (tracking p).
Definition set_gpu_processes (m : gmap string (gset string)) (p : ProcessModel) :=
  mkProcessModel (names p) (exes p) (cmdlines p) (create_times p) (pids p)
    (ppids p) (dead p) m (zero_cpu_processes p) (tracking p).
Definition set_zero_cpu_processes (z : list (string * ProcRec)) (p : ProcessModel) :=
  mkProcessModel (names p) (exes p) (cmdlines p) (create_times p) (pids p)
    (ppids p) (dead p) (gpu_processes p) z (tracking p).
Definition set_tracking (t : list (string * Track)) (p : ProcessModel) :=
  mkProcessModel (names p) (exes p) (cmdlines p) (create_times p) (pids p)
    (ppids p) (dead p) (gpu_processes p) (zero_cpu_processes p) t.

(** *** [track] *)

(** [if process_id not in m: m[process_id] = s['value'][0]] *)
Definition first_write (m : gmap string pyval) (process_id : string)
    (s : Payload) : result (gmap string pyval) :=
  if attr_mem m process_id then Ok m
  else v <- value0 s ;;; Ok (<[process_id := v]> m).

(** The GPU branch: register the sub-process (segments 3-4) in the set
    of the process named by the first two segments. *)
Definition register_gpu (ind_split : list string)
    (g : gmap string (gset string)) : gmap string (gset string) :=
  let process_id := join_dot (slice 0 2 ind_split) in
  let gpu_process := join_dot (slice 2 4 ind_split) in
  match g !! process_id with
  | Some set => <[process_id := set ∪ {[gpu_process]}]> g
  | None => <[process_id := {[gpu_process]}]> g
  end.

(** One iteration of the loop of [track]: the model and the batch [res]
    under construction, after the key [ind] with payload [s]. *)
Definition track_item (ind : string) (s : Payload)
    (st : ProcessModel * list (string * Payload))
  : result (ProcessModel * list (string * Payload)) :=
  let '(p, res) := st in
  let ind_split := split_dot ind in
  ind_type <- first_seg ind_split ;;;
  if String.eqb ind_type PROCESS then
    suffix <- last_seg ind_split ;;;
    let process_id := join_dot (but_last ind_split) in
    if String.eqb "name" suffix then
      m <- first_write (names p) process_id s ;;; Ok (set_names m p, res)
    else if String.eqb "exe" suffix then
      m <- first_write (exes p) process_id s ;;; Ok (set_exes m p, res)
    else if String.eqb "cmdline" suffix then
      m <- first_write (cmdlines p) process_id s ;;; Ok (set_cmdlines m p, res)
    else if String.eqb "create_time" suffix then
      m <- first_write (create_times p) process_id s ;;;
      Ok (set_create_times m p, res)
    else if String.eqb "pid" suffix then
      m <- first_write (pids p) process_id s ;;; Ok (set_pids m p, res)
    else if String.eqb "ppids" suffix then
      m <- first_write (ppids p) process_id s ;;; Ok (set_ppids m p, res)
    else if String.eqb "dead" suffix then
      m <- first_write (dead p) process_id s ;;; Ok (set_dead m p, res)
    else
      let p :=
        if contains "gpu" process_id
        then set_gpu_processes (register_gpu ind_split (gpu_processes p)) p
        else p in
      Ok (p, dict_set ind s res)
  else Ok (p, res).

(** The loop over [data.items()].  An exception leaves the objects as
    the iterations before it made them. *)
Fixpoint track_loop (data : list (string * Payload))
    (st : ProcessModel * list (string * Payload))
  : (ProcessModel * list (string * Payload)) * option exn :=
  match data with
  | [] => (st, None)
  | (ind, s) :: data' =>
      match track_item ind s st with
      | Ok st' => track_loop data' st'
      | Raise e => (st, Some e)
      end
  end.

(** [ProcessAnalysis.track]: the model afterwards, and whether the call
    returned or raised. *)
Definition track (p : ProcessModel) (data : list (string * Payload))
  : ProcessModel * result unit :=
  match track_loop data (p, []) with
  | ((p', res), None) =>
      (set_tracking (series_track (tracking p') res) p', Ok tt)
  | ((p', _), Some e) => (p', Raise e)
  end.

(** *** [get_tracking] *)

(** The objects of one call: the record dicts in a heap indexed by
    location, and the two dicts [res] and [zero_cpu_processes] that
    refer to them. *)
Record LiveState : Type := mkLiveState {
  heap : list ProcRec;
  res : list (string * nat);
  zero : list (string * nat)
}.

(** [res[process_id] = {...}], a new record dict *)
Definition new_record (p : ProcessModel) (process_id : string) (dead_v : pyval)
    (ls : LiveState) : LiveState :=
  let r := mkProcRec process_id dead_v
             (attr_get (pids p) process_id (PNum 0))
             (attr_get (names p) process_id (PStr ""))
             false None None in
  mkLiveState (heap ls ++ [r])
              (dict_set process_id (length (heap ls)) (res ls))
              (zero ls).

(** In-place update of the record at a location *)
Definition update_at (l : nat) (f : ProcRec -> ProcRec) (ls : LiveState)
  : LiveState :=
  mkLiveState (alter f l (heap ls)) (res ls) (zero ls).

(** The [if suffix == 'cpu' and mean < ALMOST_ZERO] block *)
Definition stash_zero (process_id suffix : string) (s : Series)
    (ls : LiveState) : result LiveState :=
  if String.eqb suffix "cpu" && negb (Qle_bool ALMOST_ZERO (summary_mean s)) then
    l <- dict_at process_id (res ls) ;;;
    let ls := mkLiveState (heap ls) (res ls) (dict_set process_id l (zero ls)) in
    l' <- dict_at process_id (res ls) ;;;
    Ok (update_at l' (set_is_zero_cpu true) ls)
  else Ok ls.

(** One iteration of the first loop of [get_tracking]. *)
Definition live_item (p : ProcessModel) (ind : string) (track : Track)
    (ls : LiveState) : result LiveState :=
  let ind_split := split_dot ind in
  let process_id := join_dot (but_last ind_split) in
  let dead_v := attr_get (dead p) process_id (PNum 0) in
  if truthy dead_v then Ok ls
  else
    let ls :=
      if dict_mem process_id (res ls) then ls
      else new_record p process_id dead_v ls in
    suffix <- last_seg ind_split ;;;
    if str_in suffix ["cpu"; "rss"] then
      let s := load track in
      ls <- stash_zero process_id suffix s ls ;;;
      l <- dict_at process_id (res ls) ;;;
      Ok (update_at l (set_metric suffix (detail s)) ls)
    else Ok ls.

Fixpoint live_loop (p : ProcessModel) (items : list (string * Track))
    (ls : LiveState) : result LiveState :=
  match items with
  | [] => Ok ls
  | (ind, track) :: items' =>
      ls' <- live_item p ind track ls ;;;
      live_loop p items' ls'
  end.

(** The second loop: the records of [res], in order, that are not
    zero-cpu and have both metrics. *)
Definition ranked (r : ProcRec) : bool :=
  negb (is_zero_cpu r
        || match cpu r with None => true | Some _ => false end
        || match rss r with None => true | Some _ => false end).

Fixpoint live_select (h : list ProcRec) (items : list (string * nat))
  : list nat :=
  match items with
  | [] => []
  | (_, l) :: items' =>
      if ranked (h !!! l) then l :: live_select h items'
      else live_select h items'
  end.

(** The summary loop over [ret[:5]]: attach the name to the cpu detail
    of the record and collect that detail.  A detail dict is referred to
    by the record it was attached to and by the summary only, so the
    summary holds the locations of the records whose cpu detail it
    lists. *)
Definition attach_name (r : ProcRec) : result ProcRec :=
  match cpu r with
  | None => Raise (KeyError "cpu")
  | Some d => Ok (set_cpu (set_d_name (r_name r) d) r)
  end.

Fixpoint summary_loop (top : list nat) (h : list ProcRec)
    (summary : list nat) : result (list ProcRec * list nat) :=
  match top with
  | [] => Ok (h, summary)
  | l :: top' =>
      r <- attach_name (h !!! l) ;;;
      summary_loop top' (<[l := r]> h) (summary ++ [l])
  end.

(** The dicts as returned or saved: locations replaced by the objects
    they refer to. *)
Definition deref (h : list ProcRec) (l : nat) : ProcRec := h !!! l.

Definition deref_summary (h : list ProcRec) (summary : list nat) : list Detail :=
  omap (fun l => cpu (h !!! l)) summary.

Definition deref_dict (h : list ProcRec) (d : list (string * nat))
  : list (string * ProcRec) :=
  (fun kl => (fst kl, h !!! snd kl)) <$> d.

(** [ProcessAnalysis.get_tracking]: the pair [(ret, summary)] and the
    model with the rebuilt cache.  When the call raises, the assignment
    to [zero_cpu_processes] is not reached. *)
Definition get_tracking (p : ProcessModel)
  : result ((list ProcRec * list Detail) * ProcessModel) :=
  ls <- live_loop p (tracking p) (mkLiveState [] [] []) ;;;
  let ret := live_select (heap ls) (res ls) in
  ret <- sort_by_key_desc (fun l => last_smoothed_cpu (heap ls !!! l)) ret ;;;
  hs <- summary_loop (take 5 ret) (heap ls) [] ;;;
  let '(h, summary) := hs in
  Ok ((deref h <$> ret, deref_summary h summary),
      set_zero_cpu_processes (deref_dict h (zero ls)) p).

(** *** [get_zero_cpu_processes] *)

Definition complete (r : ProcRec) : bool :=
  negb (match cpu r with None => true | Some _ => false end
        || match rss r with None => true | Some _ => false end).

Fixpoint zero_select (items : list (string * ProcRec)) : list ProcRec :=
  match items with
  | [] => []
  | (_, v) :: items' =>
      if complete v then v :: zero_select items' else zero_select items'
  end.

Definition get_zero_cpu_processes (p : ProcessModel) : result (list ProcRec) :=
  sort_by_key_desc last_smoothed_cpu (zero_select (zero_cpu_processes p)).

(** *** [get_process] and its route *)

(** The body shared by the two series loops: the detail of the series
    stored under [ind], named [s_name], when there is one. *)
Definition series_of (p : ProcessModel) (ind s_name : string) : list Detail :=
  match dict_get ind (tracking p) with
  | Some track =>
      if track_truthy track
      then [set_d_name (PStr s_name) (detail (load track))]
      else []
  | None => []
  end.

(** [get_process].  The GPU sub-processes are a Python set, whose
    iteration order is not specified; [elements] enumerates them in one
    fixed order. *)
Definition get_process (p : ProcessModel) (process_id : string)
  : result ProcDetail :=
  match names p !! process_id with
  | None => Raise (KeyError process_id)
  | Some name =>
      let canonical :=
        flat_map (fun s_name =>
                    series_of p (process_id +:+ String dot s_name) s_name)
                 SERIES_NAMES in
      let gpu :=
        flat_map (fun gpu_process : string =>
                    let s_name := gpu_process +:+ ".mem" in
                    series_of p (process_id +:+ String dot s_name) s_name)
                 (elements (default ∅ (gpu_processes p !! process_id))) in
      Ok (mkProcDetail process_id name
            (attr_get (create_times p) process_id (PNum 0))
            (attr_get (cmdlines p) process_id (PStr ""))
            (attr_get (exes p) process_id (PStr ""))
            (attr_get (pids p) process_id (PNum 0))
            (attr_get (ppids p) process_id (PNum 0))
            (attr_get (dead p) process_id (PNum 0))
            (canonical ++ gpu))
  end.

(** The route [process/{session_uuid}/details/{process_id}]: the analysis
    object is always there, so the body runs [get_process] and answers
    200; an exception of [get_process] leaves the handler. *)
Definition get_process_detail (p : ProcessModel) (process_id : string)
  : result (nat * ProcDetail) :=
  data <- get_process p process_id ;;;
  Ok (200, data).

(** ** Vocabulary of the properties *)

(** The process identifier and the metric suffix that the queries derive
    from a series key. *)
Definition pid_of (ind : string) : string :=
  join_dot (but_last (split_dot ind)).

Definition suffix_of (ind : string) : string :=
  List.last (split_dot ind) "".

(** The static attribute maps, [dead] included. *)
Definition static_maps (p : ProcessModel) : list (gmap string pyval) :=
  [names p; exes p; cmdlines p; create_times p; pids p; ppids p; dead p].

(** Every entry of [m] is in [m'] with the same value. *)
Definition kept (m m' : gmap string pyval) : Prop :=
  forall k v, m !! k = Some v -> m' !! k = Some v.

(** [m'] is [m], or [m] with one entry added under a key that [m] did
    not have, holding the first value of the payload [s]. *)
Definition written_if_absent (s : Payload) (m m' : gmap string pyval) : Prop :=
  m' = m \/
  exists k v, m !! k = None /\ value0 s = Ok v /\ m' = <[k := v]> m.

(** The entry of the [dead] map for the process is truthy. *)
Definition marked_dead (p : ProcessModel) (k : string) : Prop :=
  exists v, dead p !! k = Some v /\ truthy v = true.

(** The series store holds a series of the process under the suffix. *)
Definition has_series (p : ProcessModel) (k suffix : string) : Prop :=
  exists ind t,
    (ind, t) ∈ tracking p /\ pid_of ind = k /\ suffix_of ind = suffix.

(** The series store holds a cpu series of the process whose mean is
    below [ALMOST_ZERO]. *)
Definition zero_series (p : ProcessModel) (k : string) : Prop :=
  exists ind t,
    (ind, t) ∈ tracking p /\ pid_of ind = k /\ suffix_of ind = "cpu" /\
    (summary_mean (load t) < ALMOST_ZERO)%Q.

(** Every cpu series of the store loads to a non-empty smoothed
    sequence. *)
Definition smoothed_nonempty (p : ProcessModel) : Prop :=
  forall ind t,
    (ind, t) ∈ tracking p -> suffix_of ind = "cpu" ->
    smoothed (detail (load t)) <> [].

(** The ranking key of a record, when it has one. *)
Definition rank_key (r : ProcRec) : option Q :=
  match last_smoothed_cpu r with Ok q => Some q | Raise _ => None end.

(** Descending order of the ranking key along a list of records. *)
Definition ranked_desc (l : list ProcRec) : Prop :=
  StronglySorted
    (fun a b => exists qa qb,
         rank_key a = Some qa /\ rank_key b = Some qb /\ (qb <= qa)%Q) l.

(** A key that the specification calls malformed: fewer than two
    dot-segments, or a first segment other than the analysis type. *)
Definition malformed (ind : string) : Prop :=
  length (split_dot ind) < 2 \/ hd "" (split_dot ind) <> PROCESS.

(** *** The loop of [get_tracking], one process at a time

    What the iterations do to the record of one process: the effect of
    the series key [ind] on the record [r] of process [k]. *)
Definition step_rec (suffix : string) (track : Track) (r : ProcRec) : ProcRec :=
  if str_in suffix ["cpu"; "rss"] then
    let s := load track in
    let r :=
      if String.eqb suffix "cpu" && negb (Qle_bool ALMOST_ZERO (summary_mean s))
      then set_is_zero_cpu true r else r in
    set_metric suffix (detail s) r
  else r.

Definition fresh_rec (p : ProcessModel) (k : string) : ProcRec :=
  mkProcRec k (attr_get (dead p) k (PNum 0))
    (attr_get (pids p) k (PNum 0)) (attr_get (names p) k (PStr ""))
    false None None.

Definition record_of (p : ProcessModel) (items : list (string * Track))
    (k : string) : ProcRec :=
  foldl (fun r it =>
           if String.eqb (pid_of (fst it)) k
           then step_rec (suffix_of (fst it)) (snd it) r else r)
        (fresh_rec p k) items.

(** The processes that get a record, in order of first appearance. *)
Definition alive (p : ProcessModel) (k : string) : bool :=
  negb (truthy (attr_get (dead p) k (PNum 0))).

Definition live_pids (p : ProcessModel) (items : list (string * Track))
  : list string :=
  foldl (fun acc it =>
           let k := pid_of (fst it) in
           if alive p k && negb (str_in k acc) then acc ++ [k] else acc)
        [] items.

(** Some cpu series of the process has a mean below the threshold. *)
Definition zero_found (items : list (string * Track)) (k : string) : bool :=
  existsb (fun it =>
             String.eqb (pid_of (fst it)) k
             && String.eqb (suffix_of (fst it)) "cpu"
             && negb (Qle_bool ALMOST_ZERO (summary_mean (load (snd it)))))
          items.

(** The objects of the loop after the series keys [items]: [res] lists
    the processes [ks] at the locations of the heap in order, every
    record is what the iterations for its process made of it, and
    [zero_cpu_processes] refers to the records of [res] that were found
    zero-cpu, by the same locations. *)
Record live_inv (p : ProcessModel) (ks : list string)
    (items : list (string * Track)) (ls : LiveState) : Prop := mkLiveInv {
  inv_dom : (res ls).*1 = ks;
  inv_nodup : NoDup ks;
  inv_locs : (res ls).*2 = seq 0 (length (heap ls));
  inv_heap : forall k l,
      (k, l) ∈ res ls -> heap ls !! l = Some (record_of p items k);
  inv_zero_keys : NoDup (zero ls).*1;
  inv_zero_res : forall k l, (k, l) ∈ zero ls -> (k, l) ∈ res ls;
  inv_zero_dom : forall k,
      k ∈ (zero ls).*1 <-> k ∈ ks /\ zero_found items k = true
}.

(** The record of the process is created on its first key. *)
Definition with_record (p : ProcessModel) (k : string) (ls : LiveState)
  : LiveState :=
  if dict_mem k (res ls) then ls
  else new_record p k (attr_get (dead p) k (PNum 0)) ls.

(** The zero-cpu test of an iteration. *)
Definition found_zero (suffix : string) (t : Track) : bool :=
  String.eqb suffix "cpu"
  && negb (Qle_bool ALMOST_ZERO (summary_mean (load t))).

(** The records that qualify for the ranked list, before sorting. *)
Definition ranked_records (p : ProcessModel) : list ProcRec :=
  List.filter ranked
    (record_of p (tracking p) <$> live_pids p (tracking p)).

(** The name attached by the summary loop. *)
Definition named (r : ProcRec) : ProcRec :=
  match cpu r with
  | Some d => set_cpu (set_d_name (r_name r) d) r
  | None => r
  end.

End Process.

Arguments names {Track} p.
Arguments exes {Track} p.
Arguments cmdlines {Track} p.
Arguments create_times {Track} p.
Arguments pids {Track} p.
Arguments ppids {Track} p.
Arguments dead {Track} p.
Arguments gpu_processes {Track} p.
Arguments zero_cpu_processes {Track} p.
Arguments tracking {Track} p.
Arguments mkProcessModel {Track}.
Arguments defaults {Track}.
Arguments set_names {Track}.
Arguments set_exes {Track}.
Arguments set_cmdlines {Track}.
Arguments set_create_times {Track}.
Arguments set_pids {Track}.
Arguments set_ppids {Track}.
Arguments set_dead {Track}.
Arguments set_gpu_processes {Track}.
Arguments set_zero_cpu_processes {Track}.
Arguments set_tracking {Track}.
Arguments track_item PROCESS {Track}.
Arguments track_loop PROCESS {Track}.
Arguments track PROCESS {Track}.
Arguments new_record {Track}.
Arguments live_item {Track}.
Arguments live_loop {Track}.
Arguments get_tracking {Track}.
Arguments get_zero_cpu_processes {Track}.
Arguments series_of {Track}.
Arguments get_process {Track}.
Arguments get_process_detail {Track}.
Arguments static_maps {Track}.
Arguments marked_dead {Track}.
Arguments has_series {Track}.
Arguments zero_series {Track}.
Arguments smoothed_nonempty {Track}.
Arguments step_rec {Track}.
Arguments fresh_rec {Track}.
Arguments record_of {Track}.
Arguments alive {Track}.
Arguments live_pids {Track}.
Arguments zero_found {Track}.
Arguments live_inv {Track}.
Arguments with_record {Track}.
Arguments found_zero {Track}.
Arguments ranked_records {Track}.

(** ** Vocabulary of the further properties *)

(** The suffixes that [track] captures into an attribute map. *)
Definition static_suffixes : list string :=
  ["name"; "exe"; "cmdline"; "create_time"; "pid"; "ppids"; "dead"].

(** The keys that [track] hands to the series store: first segment the
    analysis type, last segment not a captured suffix. *)
Definition forwarded_key (PROCESS ind : string) : bool :=
  String.eqb (hd "" (split_dot ind)) PROCESS
  && negb (str_in (List.last (split_dot ind) "") static_suffixes).

(** The attribute map that [track] writes for a suffix. *)
Definition static_map {Track : Type} (suffix : string) (p : ProcessModel Track)
  : option (gmap string pyval) :=
  if String.eqb "name" suffix then Some (names p)
  else if String.eqb "exe" suffix then Some (exes p)
  else if String.eqb "cmdline" suffix then Some (cmdlines p)
  else if String.eqb "create_time" suffix then Some (create_times p)
  else if String.eqb "pid" suffix then Some (pids p)
  else if String.eqb "ppids" suffix then Some (ppids p)
  else if String.eqb "dead" suffix then Some (dead p)
  else None.

(** [p] with the attribute map of a suffix replaced. *)
Definition set_static_map {Track : Type} (suffix : string)
    (m : gmap string pyval) (p : ProcessModel Track) : ProcessModel Track :=
  if String.eqb "name" suffix then set_names m p
  else if String.eqb "exe" suffix then set_exes m p
  else if String.eqb "cmdline" suffix then set_cmdlines m p
  else if String.eqb "create_time" suffix then set_create_times m p
  else if String.eqb "pid" suffix then set_pids m p
  else if String.eqb "ppids" suffix then set_ppids m p
  else if String.eqb "dead" suffix then set_dead m p
  else p.

(** The GPU branch of [track] on a model. *)
Definition with_gpu {Track : Type} (ind : string) (p : ProcessModel Track)
  : ProcessModel Track :=
  if contains "gpu" (pid_of ind)
  then set_gpu_processes (register_gpu (split_dot ind) (gpu_processes p)) p
  else p.


(** ** Sample sessions

    Concrete models on which the properties are exercised.  A stored
    series is represented by what loading it yields. *)
Module Sample.

(** The value of [COMPUTEREnums.PROCESS] used in the samples: the keys of
    this analysis are of the form [process.<id>.<metric>]. *)
Definition PROCESS : string := "process".

Definition load (t : Series) : Series := t.

Definition track_truthy (t : Series) : bool := true.

(** A stand-in for the series store: it creates a series under each key
    of the batch. *)
Definition series_track (tr : list (string * Series))
    (batch : list (string * Payload)) : list (string * Series) :=
  foldl (fun acc kv => dict_set (fst kv) (mkSeries 0 (mkDetail [0%Q] None)) acc)
        tr batch.

Definition ser (mean : Q) (sm : list Q) : Series :=
  mkSeries mean (mkDetail sm None).

Definition model (nm dd : gmap string pyval) (cache : list (string * ProcRec))
    (tr : list (string * Series)) : ProcessModel Series :=
  mkProcessModel nm ∅ ∅ ∅ ∅ ∅ dd ∅ cache tr.

(** Processes 1 and 4 are busy; 2 and 6 are idle (2 has its rss series
    before its cpu series, 6 after); 3 is dead; 5 has no cpu series; 7
    is idle and has no rss series.  The cache holds a stale entry. *)
Definition session : ProcessModel Series :=
  model {[ "process.1" := PStr "python"; "process.2" := PStr "bash" ]}
        {[ "process.3" := PNum 1 ]}
        [("process.1", mkProcRec "process.1" (PNum 0) (PNum 0) (PStr "python")
                         true (Some (mkDetail [0%Q] None)) (Some (mkDetail [4%Q] None)))]
        [("process.1.cpu", ser 1 [1; 2]%Q);
         ("process.1.rss", ser 5 [5]%Q);
         ("process.2.rss", ser 5 [5]%Q);
         ("process.2.cpu", ser 0 [0; 0]%Q);
         ("process.3.cpu", ser 9 [9]%Q);
         ("process.3.rss", ser 9 [9]%Q);
         ("process.4.cpu", ser 3 [3; 3]%Q);
         ("process.4.rss", ser 9 [9]%Q);
         ("process.5.rss", ser 9 [9]%Q);
         ("process.6.cpu", ser (1 # 1000) [0]%Q);
         ("process.6.rss", ser 7 [7]%Q);
         ("process.7.cpu", ser 0 [0]%Q)].

Definition session_out :=
  Eval vm_compute in get_tracking load session.

Definition session_ret : list ProcRec :=
  match session_out with Ok ((ret, _), _) => ret | Raise _ => [] end.
Definition session_summary : list Detail :=
  match session_out with Ok ((_, summary), _) => summary | Raise _ => [] end.
Definition session_after : ProcessModel Series :=
  match session_out with Ok (_, p') => p' | Raise _ => session end.

(** The cache entry of process 6 after the call. *)
Definition idle6 : ProcRec :=
  Eval vm_compute in
    default inhabitant (dict_get "process.6" (zero_cpu_processes session_after)).

Definition session_zero : list ProcRec :=
  Eval vm_compute in
    match get_zero_cpu_processes session_after with
    | Ok z => z
    | Raise _ => []
    end.

(** Eight busy processes, the i-th with last smoothed cpu value i. *)
Definition busy (i : Z) : list (string * Series) :=
  let k := "process." +:+ String (ascii_of_nat (48 + Z.to_nat i)) "" in
  [(k +:+ ".cpu", ser (inject_Z i) [inject_Z i]);
   (k +:+ ".rss", ser 1 [1%Q])].

Definition eight : ProcessModel Series :=
  model ∅ ∅ [] (flat_map busy [3; 1; 4; 8; 5; 2; 7; 6]%Z).

Definition eight_out :=
  Eval vm_compute in get_tracking load eight.

Definition eight_ret : list ProcRec :=
  match eight_out with Ok ((ret, _), _) => ret | Raise _ => [] end.
Definition eight_summary : list Detail :=
  match eight_out with Ok ((_, summary), _) => summary | Raise _ => [] end.

(** A store whose only process has a cpu series with an empty smoothed
    sequence, and a cache with such a record. *)
Definition hollow : ProcessModel Series :=
  model ∅ ∅ []
        [("process.1.cpu", ser 1 []); ("process.1.rss", ser 1 [1%Q])].

Definition hollow_cache : ProcessModel Series :=
  model ∅ ∅
        [("process.1", mkProcRec "process.1" (PNum 0) (PNum 0) (PStr "")
                         true (Some (mkDetail [] None)) (Some (mkDetail [1%Q] None)))]
        [].

Definition sample (v : pyval) : Payload := mkPayload [0%Q] [v].

End Sample.

(** ** Further sample inputs *)
Module Probe.

(** A batch with a captured sample, two forwarded ones and a key of
    another analysis. *)
Definition batch : list (string * Payload) :=
  [("process.1.name", Sample.sample (PStr "other"));
   ("process.1.cpu", Sample.sample (PNum 3));
   ("cpu.0.user", Sample.sample (PNum 5));
   ("process.1.ppid", Sample.sample (PNum 1))].

(** A model that has seen one GPU sub-process of process 9, and holds its
    memory series. *)
Definition gpu_session : ProcessModel Series :=
  mkProcessModel {[ "process.9" := PStr "train" ]} ∅ ∅ ∅ ∅ ∅ ∅
    {[ "process.9" := {[ "gpu.0" ]} ]} []
    [("process.9.gpu.0.mem", Sample.ser 1 [1%Q])].

(** A store whose only process is marked dead. *)
Definition graveyard : ProcessModel Series :=
  Sample.model ∅ {[ "process.3" := PNum 1 ]} []
    [("process.3.cpu", Sample.ser 9 [9%Q]); ("process.3.rss", Sample.ser 9 [9%Q])].

(** The detail of process 1 in the sample session. *)
Definition detail1 : ProcDetail :=
  Eval vm_compute in
    match get_process Sample.load Sample.track_truthy Sample.session "process.1" with
    | Ok d => d
    | Raise _ => mkProcDetail "" (PStr "") (PNum 0) (PStr "") (PStr "") (PNum 0)
                   (PNum 0) (PNum 0) []
    end.

(** The ranked record of process 1 in the sample session. *)
Definition ranked1 : ProcRec :=
  Eval vm_compute in
    default inhabitant
      (List.find (fun r => String.eqb (process_id r) "process.1") Sample.session_ret).

End Probe.

(** * Properties *)

(** ** Strings *)

Lemma split_dot_nonnil (s : string) : split_dot s <> [].
Proof.
  destruct s as [|c s]; simpl; [discriminate|].
  destruct (Ascii.eqb c dot); [discriminate|].
  destruct (split_dot s); discriminate.
Qed.

Lemma first_seg_split (s : string) :
  first_seg (split_dot s) = Ok (hd "" (split_dot s)).
Proof.
  pose proof (split_dot_nonnil s) as H.
  destruct (split_dot s); [congruence | reflexivity].
Qed.

Lemma last_seg_split (s : string) :
  last_seg (split_dot s) = Ok (List.last (split_dot s) "").
Proof.
  pose proof (split_dot_nonnil s) as H.
  destruct (split_dot s); [congruence | reflexivity].
Qed.

(** A key of fewer than two segments has no dot: it is its own single
    segment. *)
Lemma split_dot_short (s : string) :
  length (split_dot s) < 2 -> split_dot s = [s].
Proof.
  induction s as [|c s IH]; simpl; [reflexivity|].
  destruct (Ascii.eqb c dot).
  - pose proof (split_dot_nonnil s) as H.
    destruct (split_dot s); [congruence | simpl; lia].
  - destruct (split_dot s) as [|h t] eqn:E; [by destruct (split_dot_nonnil s)|].
    simpl. intros Hlen.
    assert (Hs : [h] = [s]) by (destruct t; [apply IH; simpl; lia | simpl in Hlen; lia]).
    destruct t; [|simpl in Hlen; lia].
    congruence.
Qed.

Lemma split_dot_app (a b : string) :
  split_dot (a +:+ String dot b) = split_dot a ++ split_dot b.
Proof.
  induction a as [|c a IH]; simpl.
  - reflexivity.
  - destruct (Ascii.eqb c dot).
    + simpl. by rewrite IH.
    + rewrite IH.
      pose proof (split_dot_nonnil a) as H.
      destruct (split_dot a); [congruence | reflexivity].
Qed.

Lemma join_dot_cons_char (c : ascii) (h : string) (t : list string) :
  join_dot (String c h :: t) = String c (join_dot (h :: t)).
Proof. destruct t; reflexivity. Qed.

Lemma join_split_dot (s : string) : join_dot (split_dot s) = s.
Proof.
  induction s as [|c s IH]; simpl; [reflexivity|].
  destruct (Ascii.eqb c dot) eqn:E.
  - apply Ascii.eqb_eq in E. subst c.
    pose proof (split_dot_nonnil s) as H.
    destruct (split_dot s) as [|h t] eqn:Es; [congruence|].
    change (join_dot ("" :: h :: t)) with (String dot (join_dot (h :: t))).
    by rewrite IH.
  - destruct (split_dot s) as [|h t] eqn:Es.
    + by destruct (split_dot_nonnil s).
    + rewrite join_dot_cons_char. by rewrite IH.
Qed.

(** A suffix without a dot is the last segment of the key built from it,
    and the rest of the key is the process identifier. *)
Lemma key_segments (k suffix : string) :
  split_dot suffix = [suffix] ->
  join_dot (but_last (split_dot (k +:+ String dot suffix))) = k /\
  List.last (split_dot (k +:+ String dot suffix)) "" = suffix.
Proof.
  intros Hs. rewrite split_dot_app, Hs. unfold but_last.
  rewrite removelast_last, last_last. split; [apply join_split_dot | reflexivity].
Qed.

(** ** Dictionaries *)

Section DictFacts.
Context {V : Type}.
Implicit Types (d : list (string * V)) (k : string) (v : V).

Lemma dict_get_elem d k v : dict_get k d = Some v -> (k, v) ∈ d.
Proof.
  induction d as [|[k' v'] d IH]; simpl; [discriminate|].
  destruct (String.eqb k k') eqn:E.
  - apply String.eqb_eq in E. intros [= ->]. subst. left.
  - intros H. right. auto.
Qed.

Lemma dict_get_None d k : dict_get k d = None <-> k ∉ d.*1.
Proof.
  induction d as [|[k' v'] d IH]; simpl.
  - split; [intros _ H; inversion H | done].
  - destruct (String.eqb k k') eqn:E.
    + apply String.eqb_eq in E. subst. split; [discriminate|].
      intros H. destruct H. left.
    + apply String.eqb_neq in E. rewrite IH, not_elem_of_cons. tauto.
Qed.

Lemma dict_get_is_Some d k : is_Some (dict_get k d) <-> k ∈ d.*1.
Proof.
  destruct (dict_get k d) eqn:E.
  - split; [intros _ | eauto].
    apply dict_get_elem in E. apply list_elem_of_fmap. by exists (k, v).
  - apply dict_get_None in E. split; [intros [? ?]; discriminate | done].
Qed.

Lemma elem_dict_get d k v :
  NoDup d.*1 -> (k, v) ∈ d -> dict_get k d = Some v.
Proof.
  induction d as [|[k' v'] d IH]; simpl; intros Hnd Hin.
  - inversion Hin.
  - apply NoDup_cons in Hnd as [Hk' Hnd].
    apply elem_of_cons in Hin as [[= -> ->]|Hin].
    + by rewrite String.eqb_refl.
    + destruct (String.eqb k k') eqn:E; [|auto].
      apply String.eqb_eq in E. subst. destruct Hk'.
      apply list_elem_of_fmap. by exists (k', v).
Qed.

Lemma dict_mem_true d k : dict_mem k d = true <-> k ∈ d.*1.
Proof.
  unfold dict_mem. rewrite <- dict_get_is_Some.
  destruct (dict_get k d); split; eauto; try discriminate.
  intros [? ?]; discriminate.
Qed.

Lemma dict_set_fresh d k v : k ∉ d.*1 -> dict_set k v d = d ++ [(k, v)].
Proof.
  induction d as [|[k' v'] d IH]; simpl; [reflexivity|].
  rewrite not_elem_of_cons. intros [Hne Hk].
  apply String.eqb_neq in Hne. rewrite Hne. by rewrite IH.
Qed.

Lemma dict_set_same d k v : dict_get k d = Some v -> dict_set k v d = d.
Proof.
  induction d as [|[k' v'] d IH]; simpl; [discriminate|].
  destruct (String.eqb k k') eqn:E.
  - apply String.eqb_eq in E. intros [= ->]. by subst.
  - intros H. by rewrite IH.
Qed.

Lemma dict_set_keys_mem d k v : k ∈ d.*1 -> (dict_set k v d).*1 = d.*1.
Proof.
  induction d as [|[k' v'] d IH]; simpl; intros H; [inversion H|].
  destruct (String.eqb k k') eqn:E.
  - apply String.eqb_eq in E. by subst.
  - apply String.eqb_neq in E. apply elem_of_cons in H as [H|H]; [done|].
    rewrite fmap_cons. simpl. f_equal. by apply IH.
Qed.

Lemma dict_set_elem d k v k' v' :
  (k', v') ∈ dict_set k v d -> (k', v') = (k, v) \/ (k', v') ∈ d.
Proof.
  induction d as [|[k0 v0] d IH]; simpl.
  - intros H. apply list_elem_of_singleton in H. by left.
  - destruct (String.eqb k k0).
    + intros H. apply elem_of_cons in H as [H|H]; [by left|].
      right. by right.
    + intros H. apply elem_of_cons in H as [H|H]; [right; rewrite H; left|].
      destruct (IH H); [by left | right; by right].
Qed.

Lemma dict_set_keys_elem d k v k' :
  k' ∈ (dict_set k v d).*1 <-> k' = k \/ k' ∈ d.*1.
Proof.
  destruct (decide (k ∈ d.*1)) as [Hk|Hk].
  - rewrite (dict_set_keys_mem d k v Hk). split; [tauto|]. by intros [->|?].
  - rewrite (dict_set_fresh d k v Hk), fmap_app, elem_of_app. simpl.
    rewrite list_elem_of_singleton. tauto.
Qed.

Lemma dict_set_NoDup d k v : NoDup d.*1 -> NoDup (dict_set k v d).*1.
Proof.
  intros Hnd. destruct (decide (k ∈ d.*1)) as [Hk|Hk].
  - by rewrite (dict_set_keys_mem d k v Hk).
  - rewrite (dict_set_fresh d k v Hk), fmap_app. apply NoDup_app.
    split; [done|]. split; [|apply NoDup_singleton].
    intros x Hx Hx'. apply list_elem_of_singleton in Hx'. by subst.
Qed.

Lemma dict_set_elem_new d k v : NoDup d.*1 -> (k, v) ∈ dict_set k v d.
Proof.
  intros Hnd. apply dict_get_elem.
  clear Hnd. induction d as [|[k0 v0] d IH]; simpl.
  - by rewrite String.eqb_refl.
  - destruct (String.eqb k k0) eqn:E; simpl.
    + by rewrite String.eqb_refl.
    + by rewrite E.
Qed.

Lemma dict_set_elem_old d k v k' v' :
  k' <> k -> (k', v') ∈ d -> (k', v') ∈ dict_set k v d.
Proof.
  intros Hne. induction d as [|[k0 v0] d IH]; simpl; intros H; [inversion H|].
  destruct (String.eqb k k0) eqn:E.
  - apply String.eqb_eq in E. subst k0.
    apply elem_of_cons in H as [[= ? ?]|H]; [congruence | by right].
  - apply elem_of_cons in H as [H|H]; [rewrite H; left | right; auto].
Qed.

(** Values that are pairwise distinct determine their keys. *)
Lemma NoDup_snd_key d k k' v :
  NoDup d.*2 -> (k, v) ∈ d -> (k', v) ∈ d -> k = k'.
Proof.
  induction d as [|[k0 v0] d IH]; simpl; intros Hnd H1 H2; [inversion H1|].
  apply NoDup_cons in Hnd as [Hv0 Hnd].
  apply elem_of_cons in H1 as [H1|H1]; apply elem_of_cons in H2 as [H2|H2].
  - congruence.
  - destruct Hv0. apply list_elem_of_fmap. exists (k', v).
    split; [simpl; congruence | done].
  - destruct Hv0. apply list_elem_of_fmap. exists (k, v).
    split; [simpl; congruence | done].
  - by apply IH.
Qed.

Lemma dict_at_Ok d k v : dict_get k d = Some v -> dict_at k d = Ok v.
Proof. unfold dict_at. by intros ->. Qed.
End DictFacts.

(** ** The stable descending sort *)

Section SortFacts.
Context {A : Type}.


Lemma insert_desc_perm (x : Q * A) (l : list (Q * A)) : insert_desc x l ≡ₚ x :: l.
Proof.
  induction l as [|y l IH]; simpl; [done|].
  destruct (Qle_bool (fst y) (fst x)); [done|].
  rewrite IH. apply Permutation_swap.
Qed.

Lemma sort_desc_perm (l : list (Q * A)) : sort_desc l ≡ₚ l.
Proof.
  induction l as [|x l IH]; simpl; [done|].
  rewrite insert_desc_perm. by rewrite IH.
Qed.

Lemma insert_desc_sorted (x : Q * A) (l : list (Q * A)) :
  StronglySorted key_ge l -> StronglySorted key_ge (insert_desc x l).
Proof.
  induction l as [|y l IH]; simpl; intros Hs.
  - repeat constructor.
  - destruct (Qle_bool (fst y) (fst x)) eqn:E.
    + apply Qle_bool_iff in E.
      apply StronglySorted_cons in Hs as Hs'. destruct Hs' as [Hy Hl].
      constructor; [done|]. constructor; [done|].
      eapply Forall_impl; [exact Hy|]. unfold key_ge. intros z Hz.
      eapply Qle_trans; [exact Hz | exact E].
    + apply StronglySorted_cons in Hs as [Hy Hl].
      assert (Hlt : (fst x <= fst y)%Q).
      { destruct (Qlt_le_dec (fst x) (fst y)) as [Hlt|Hle].
        - by apply Qlt_le_weak.
        - apply Qle_bool_iff in Hle. congruence. }
      constructor; [by apply IH|].
      rewrite (insert_desc_perm x l). constructor; done.
Qed.

Lemma sort_desc_sorted (l : list (Q * A)) : StronglySorted key_ge (sort_desc l).
Proof.
  induction l as [|x l IH]; simpl; [constructor|].
  by apply insert_desc_sorted.
Qed.




Lemma decorate_Ok (key : A -> result Q) (l : list A) kl :
  decorate key l = Ok kl ->
  kl.*2 = l /\ Forall (fun qx => key (snd qx) = Ok (fst qx)) kl.
Proof.
  revert kl. induction l as [|x l IH]; simpl; intros kl.
  - intros [= <-]. split; [reflexivity | constructor].
  - destruct (key x) as [q|e] eqn:Ek; simpl; [|discriminate].
    destruct (decorate key l) as [kl'|e] eqn:Ed; simpl; [|discriminate].
    intros [= <-]. destruct (IH kl' eq_refl) as [H1 H2].
    split; [rewrite fmap_cons; simpl; by f_equal | constructor; done].
Qed.

Lemma decorate_total (key : A -> result Q) (l : list A) :
  Forall (fun x => exists q, key x = Ok q) l ->
  exists kl, decorate key l = Ok kl.
Proof.
  induction 1 as [|x l [q Hq] _ [kl IH]]; simpl; [eauto|].
  rewrite Hq, IH. simpl. eauto.
Qed.

Lemma decorate_Raise (key : A -> result Q) (l : list A) x e :
  x ∈ l -> key x = Raise e ->
  exists e', decorate key l = Raise e'.
Proof.
  intros Hin Hx. induction l as [|y l IH]; [inversion Hin|].
  simpl. destruct (key y) as [q|e1] eqn:Ey; simpl; [|eauto].
  apply elem_of_cons in Hin as [->|Hin]; [congruence|].
  destruct (IH Hin) as [e' ->]. simpl. eauto.
Qed.

(** The sort returns a permutation of its argument, in descending
    order of the key, and it returns whenever every key is defined. *)
Lemma sort_by_key_desc_Ok (key : A -> result Q) (l l' : list A) :
  sort_by_key_desc key l = Ok l' ->
  l' ≡ₚ l /\
  StronglySorted
    (fun a b => exists qa qb, key a = Ok qa /\ key b = Ok qb /\ (qb <= qa)%Q) l'.
Proof.
  unfold sort_by_key_desc.
  destruct (decorate key l) as [kl|e] eqn:Ed; simpl; [|discriminate].
  intros [= <-]. apply decorate_Ok in Ed as [Hl Hk]. split.
  - rewrite <- Hl. by rewrite (sort_desc_perm kl).
  - assert (Hk' : Forall (fun qx => key (snd qx) = Ok (fst qx)) (sort_desc kl)).
    { by rewrite (sort_desc_perm kl). }
    pose proof (sort_desc_sorted kl) as Hs.
    induction Hs as [|qx kl' Hs IH Hall]; simpl; [constructor|].
    apply Forall_cons in Hk' as [Hqx Hk'].
    constructor; [by apply IH|].
    apply Forall_fmap. rewrite Forall_forall in Hall, Hk' |- *.
    intros qy Hy. simpl. exists (fst qx), (fst qy).
    split; [done|]. split; [by apply Hk' | by apply Hall].
Qed.

Lemma sort_by_key_desc_total (key : A -> result Q) (l : list A) :
  Forall (fun x => exists q, key x = Ok q) l ->
  exists l', sort_by_key_desc key l = Ok l'.
Proof.
  intros H. destruct (decorate_total key l H) as [kl Hkl].
  unfold sort_by_key_desc. rewrite Hkl. simpl. eauto.
Qed.

Lemma sort_by_key_desc_Raise (key : A -> result Q) (l : list A) x e :
  x ∈ l -> key x = Raise e ->
  exists e', sort_by_key_desc key l = Raise e'.
Proof.
  intros Hin Hx. destruct (decorate_Raise key l x e Hin Hx) as [e' He'].
  unfold sort_by_key_desc. rewrite He'. simpl. eauto.
Qed.
End SortFacts.

(** ** Ingestion: [track] *)

Section TrackFacts.
Variable PROCESS : string.
Variable Track : Type.
Variable series_track :
  list (string * Track) -> list (string * Payload) -> list (string * Track).

Implicit Types (p : ProcessModel Track) (res : list (string * Payload))
  (m : gmap string pyval) (s : Payload).

Local Arguments String.eqb : simpl never.

Lemma kept_refl m : kept m m.
Proof. by intros k v. Qed.

Lemma kept_trans m1 m2 m3 : kept m1 m2 -> kept m2 m3 -> kept m1 m3.
Proof. intros H1 H2 k v H. by apply H2, H1. Qed.

Lemma written_kept s m m' : written_if_absent s m m' -> kept m m'.
Proof.
  intros [->|(k & v & Hk & _ & ->)]; [apply kept_refl|].
  intros k' v' H. rewrite lookup_insert_ne; [done | congruence].
Qed.

Lemma first_write_written m k s m' :
  first_write m k s = Ok m' -> written_if_absent s m m'.
Proof.
  unfold first_write, attr_mem. destruct (m !! k) eqn:Hk.
  - intros [= <-]. by left.
  - destruct (value0 s) as [v|e] eqn:Hv; simpl; [|discriminate].
    intros [= <-]. right. eauto.
Qed.

(** A present key blocks the write whatever the sample is. *)
Lemma first_write_present m k s v :
  m !! k = Some v -> first_write m k s = Ok m.
Proof. unfold first_write, attr_mem. by intros ->. Qed.

Ltac split_maps :=
  unfold static_maps; simpl;
  repeat (constructor; [first [assumption | by left] |]); try constructor.

(** One iteration either leaves each static map alone or adds one entry
    under a key that was absent. *)
Lemma track_item_written ind s p res p' res' :
  track_item PROCESS ind s (p, res) = Ok (p', res') ->
  Forall2 (written_if_absent s) (static_maps p) (static_maps p').
Proof.
  unfold track_item. rewrite first_seg_split, last_seg_split. simpl.
  destruct (String.eqb _ PROCESS); [|intros [= <- <-]; split_maps].
  repeat match goal with
    | |- context [if String.eqb ?a ?b then _ else _] =>
        destruct (String.eqb a b)
    end;
    try (match goal with
         | |- context [first_write ?m ?k s] =>
             destruct (first_write m k s) as [m'|e] eqn:Hw; simpl;
             [apply first_write_written in Hw | discriminate]
         end;
         intros [= <- <-]; split_maps).
  destruct (contains _ _); intros [= <- <-]; split_maps.
Qed.

Lemma track_item_kept ind s p res p' res' :
  track_item PROCESS ind s (p, res) = Ok (p', res') ->
  Forall2 kept (static_maps p) (static_maps p').
Proof.
  intros H. apply track_item_written in H.
  eapply Forall2_impl; [exact H|]. apply written_kept.
Qed.

Lemma kept_maps_refl p : Forall2 kept (static_maps p) (static_maps p).
Proof. unfold static_maps. repeat constructor; apply kept_refl. Qed.

Lemma kept_maps_trans p1 p2 p3 :
  Forall2 kept (static_maps p1) (static_maps p2) ->
  Forall2 kept (static_maps p2) (static_maps p3) ->
  Forall2 kept (static_maps p1) (static_maps p3).
Proof.
  unfold static_maps. intros H1 H2.
  repeat match goal with
    | H : Forall2 _ (_ :: _) (_ :: _) |- _ =>
        apply Forall2_cons in H; destruct H
    end.
  repeat (constructor; [eapply kept_trans; eassumption|]). constructor.
Qed.

Lemma track_loop_kept data p res :
  Forall2 kept (static_maps p)
    (static_maps (fst (fst (track_loop PROCESS data (p, res))))).
Proof.
  revert p res.
  induction data as [|[ind s] data IH]; intros p res; cbn [track_loop].
  - apply kept_maps_refl.
  - destruct (track_item PROCESS ind s (p, res)) as [[p' res']|e] eqn:E.
    + eapply kept_maps_trans; [eapply track_item_kept; exact E | apply IH].
    + apply kept_maps_refl.
Qed.

(** C2.  First-write-wins: whatever the batch, every entry of every
    static attribute map ([names], [exes], [cmdlines], [create_times],
    [pids], [ppids] and [dead] alike) is still there with the same value
    after [track]; and one iteration of [track] changes such a map only
    by adding the first value of the sample under a process identifier
    that the map did not have. *)
Theorem track_first_write_wins p data :
  Forall2 kept (static_maps p)
    (static_maps (fst (track PROCESS series_track p data))) /\
  (forall ind s res p' res',
      track_item PROCESS ind s (p, res) = Ok (p', res') ->
      Forall2 (written_if_absent s) (static_maps p) (static_maps p')).
Proof.
  split.
  - unfold track. pose proof (track_loop_kept data p []) as H.
    destruct (track_loop PROCESS data (p, [])) as [[p' res'] [e|]]; exact H.
  - intros ind s res p' res'. apply track_item_written.
Qed.

(** A key whose first segment is not the analysis type is skipped. *)
Lemma track_item_foreign ind s (st : ProcessModel Track * list (string * Payload)) :
  hd "" (split_dot ind) <> PROCESS -> track_item PROCESS ind s st = Ok st.
Proof.
  intros Hne. destruct st as [p res]. unfold track_item.
  rewrite first_seg_split. simpl.
  apply String.eqb_neq in Hne. by rewrite Hne.
Qed.

(** The bare analysis-type name passes the prefix test, with an empty
    process identifier and itself as suffix: unless it is the name of a
    static attribute, it is forwarded to the series store. *)
Lemma track_item_bare_prefix s p res :
  split_dot PROCESS = [PROCESS] ->
  str_in PROCESS ["name"; "exe"; "cmdline"; "create_time"; "pid"; "ppids"; "dead"]
  = false ->
  track_item PROCESS PROCESS s (p, res) = Ok (p, dict_set PROCESS s res).
Proof.
  intros Hsplit Hstatic. unfold track_item. rewrite Hsplit.
  cbn [first_seg last_seg bind List.last but_last removelast join_dot].
  rewrite String.eqb_refl.
  unfold str_in in Hstatic. cbn [existsb] in Hstatic.
  repeat (apply orb_false_iff in Hstatic as [E Hstatic];
          rewrite String.eqb_sym in E; rewrite E; clear E).
  reflexivity.
Qed.

(** C7, as the code has it.  A malformed key other than the bare
    analysis-type name (so: every key whose first segment is not the
    analysis type) is skipped by [track]: the iteration does not raise
    and leaves the attribute maps, the GPU map and the batch to forward
    as they were. *)
Theorem track_item_skips_malformed ind s
    (st : ProcessModel Track * list (string * Payload)) :
  malformed PROCESS ind -> ind <> PROCESS ->
  track_item PROCESS ind s st = Ok st.
Proof.
  intros [Hshort|Hne] Hbare; apply track_item_foreign; [|done].
  rewrite (split_dot_short ind Hshort). simpl. done.
Qed.
End TrackFacts.

(** ** The detail query: [get_process] *)

Section DetailFacts.
Variable Track : Type.
Variable load : Track -> Series.
Variable track_truthy : Track -> bool.

Implicit Types (p : ProcessModel Track) (k : string).

Lemma attr_get_absent (m : gmap string pyval) k dflt :
  m !! k = None -> attr_get m k dflt = dflt.
Proof. unfold attr_get. by intros ->. Qed.

Lemma attr_get_present (m : gmap string pyval) k dflt v :
  m !! k = Some v -> attr_get m k dflt = v.
Proof. unfold attr_get. by intros ->. Qed.

Lemma get_process_no_name p k :
  names p !! k = None ->
  get_process load track_truthy p k = Raise (KeyError k).
Proof. unfold get_process. by intros ->. Qed.

Lemma get_process_named p k name :
  names p !! k = Some name ->
  exists d,
    get_process load track_truthy p k = Ok d /\
    pd_process_id d = k /\
    pd_name d = name /\
    pd_create_time d = attr_get (create_times p) k (PNum 0) /\
    pd_cmdline d = attr_get (cmdlines p) k (PStr "") /\
    pd_exe d = attr_get (exes p) k (PStr "") /\
    pd_pid d = attr_get (pids p) k (PNum 0) /\
    pd_ppid d = attr_get (ppids p) k (PNum 0) /\
    pd_dead d = attr_get (dead p) k (PNum 0).
Proof.
  intros Hn. unfold get_process. rewrite Hn.
  eexists. split; [reflexivity|]. simpl. repeat split.
Qed.

(** C8.  The detail query of a process identifier that is not in [names]
    raises the lookup error for that identifier, in the method and
    through the route, and returns no record; with a name recorded it
    returns a record, whatever else is missing: each other attribute that
    is absent from its map comes out as its default, the empty string or
    zero. *)
Theorem get_process_name_mandatory p k :
  (names p !! k = None ->
   get_process load track_truthy p k = Raise (KeyError k) /\
   get_process_detail load track_truthy p k = Raise (KeyError k)) /\
  (forall name, names p !! k = Some name ->
   exists d,
     get_process load track_truthy p k = Ok d /\
     get_process_detail load track_truthy p k = Ok (200, d) /\
     pd_name d = name /\
     (create_times p !! k = None -> pd_create_time d = PNum 0) /\
     (cmdlines p !! k = None -> pd_cmdline d = PStr "") /\
     (exes p !! k = None -> pd_exe d = PStr "") /\
     (pids p !! k = None -> pd_pid d = PNum 0) /\
     (ppids p !! k = None -> pd_ppid d = PNum 0) /\
     (dead p !! k = None -> pd_dead d = PNum 0)).
Proof.
  split.
  - intros Hn. unfold get_process_detail.
    rewrite (get_process_no_name p k Hn). by split.
  - intros name Hn.
    destruct (get_process_named p k name Hn)
      as (d & Hd & _ & Hname & Hct & Hcl & Hex & Hpid & Hppid & Hdead).
    exists d. unfold get_process_detail. rewrite Hd. simpl.
    split; [done|]. split; [done|]. split; [done|].
    rewrite Hct, Hcl, Hex, Hpid, Hppid, Hdead.
    repeat split; apply attr_get_absent.
Qed.
End DetailFacts.

(** ** The live table: the loop of [get_tracking] *)

Section LiveFacts.
Variable Track : Type.
Variable load : Track -> Series.
Variable p : ProcessModel Track.

Implicit Types (k ind suffix : string) (t : Track)
  (items : list (string * Track)) (ls : LiveState) (r : ProcRec).

Local Arguments String.eqb : simpl never.

Lemma str_in_true k (l : list string) : str_in k l = true <-> k ∈ l.
Proof.
  unfold str_in. rewrite existsb_exists. split.
  - intros (x & Hx & E). apply String.eqb_eq in E. subst.
    by apply list_elem_of_In.
  - intros H. exists k. split; [by apply list_elem_of_In | apply String.eqb_refl].
Qed.

Lemma str_in_false k (l : list string) : str_in k l = false <-> k ∉ l.
Proof.
  rewrite <- str_in_true. destruct (str_in k l); split; congruence.
Qed.

(** *** The loop, one item further *)

Lemma live_pids_snoc items ind t :
  live_pids p (items ++ [(ind, t)]) =
  if alive p (pid_of ind) && negb (str_in (pid_of ind) (live_pids p items))
  then live_pids p items ++ [pid_of ind] else live_pids p items.
Proof. unfold live_pids. by rewrite foldl_snoc. Qed.

Lemma record_of_snoc items ind t k :
  record_of load p (items ++ [(ind, t)]) k =
  if String.eqb (pid_of ind) k
  then step_rec load (suffix_of ind) t (record_of load p items k)
  else record_of load p items k.
Proof. unfold record_of. by rewrite foldl_snoc. Qed.

Lemma zero_found_snoc items ind t k :
  zero_found load (items ++ [(ind, t)]) k =
  zero_found load items k
  || (String.eqb (pid_of ind) k && String.eqb (suffix_of ind) "cpu"
      && negb (Qle_bool ALMOST_ZERO (summary_mean (load t)))).
Proof.
  unfold zero_found. rewrite existsb_app. simpl. by rewrite orb_false_r.
Qed.

Lemma live_pids_NoDup items : NoDup (live_pids p items).
Proof.
  induction items as [|[ind t] items IH] using rev_ind; [constructor|].
  rewrite live_pids_snoc.
  destruct (alive p (pid_of ind)); simpl; [|done].
  destruct (str_in (pid_of ind) (live_pids p items)) eqn:E; simpl; [done|].
  apply str_in_false in E. apply NoDup_app. split; [done|].
  split; [|apply NoDup_singleton].
  intros x Hx Hx'. apply list_elem_of_singleton in Hx'. by subst.
Qed.

(** The processes with a record: those that are not dead and have some
    series key. *)
Lemma elem_of_live_pids items k :
  k ∈ live_pids p items <->
  alive p k = true /\ exists it, it ∈ items /\ pid_of (fst it) = k.
Proof.
  induction items as [|[ind t] items IH] using rev_ind.
  - split; [intros H; inversion H|]. intros (_ & it & H & _). inversion H.
  - rewrite live_pids_snoc.
    assert (Hsnoc : (exists it, it ∈ items ++ [(ind, t)] /\ pid_of (fst it) = k)
                    <-> (exists it, it ∈ items /\ pid_of (fst it) = k)
                        \/ pid_of ind = k).
    { split.
      - intros (it & Hin & Hk). apply elem_of_app in Hin as [Hin|Hin]; [eauto|].
        apply list_elem_of_singleton in Hin. subst. by right.
      - intros [(it & Hin & Hk)| Hk].
        + exists it. split; [apply elem_of_app; by left | done].
        + exists (ind, t). split; [|done].
          apply elem_of_app. right. by apply list_elem_of_singleton. }
    rewrite Hsnoc.
    destruct (alive p (pid_of ind)) eqn:Ea; simpl.
    + destruct (str_in (pid_of ind) (live_pids p items)) eqn:E; simpl.
      * apply str_in_true in E. rewrite IH. split; [tauto|].
        intros [Hk [H| <-]]; [tauto|]. by apply IH.
      * rewrite elem_of_app, list_elem_of_singleton, IH. split.
        -- intros [?| ->]; [tauto|]. split; [done | by right].
        -- intros [Hk [H| <-]]; [tauto | by right].
    + rewrite IH. split; [tauto|].
      intros [Hk [H| <-]]; [tauto | congruence].
Qed.

Lemma record_of_untouched items k :
  (forall it, it ∈ items -> pid_of (fst it) <> k) ->
  record_of load p items k = fresh_rec p k.
Proof.
  induction items as [|[ind t] items IH] using rev_ind; intros H; [reflexivity|].
  rewrite record_of_snoc.
  assert (Hne : pid_of ind <> k).
  { apply (H (ind, t)). apply elem_of_app. right. by apply list_elem_of_singleton. }
  apply String.eqb_neq in Hne. rewrite Hne. apply IH.
  intros it Hit. apply H. apply elem_of_app. by left.
Qed.

Lemma zero_found_untouched items k :
  (forall it, it ∈ items -> pid_of (fst it) <> k) ->
  zero_found load items k = false.
Proof.
  intros H. unfold zero_found. apply not_true_is_false. intros E.
  apply existsb_exists in E as (it & Hit & E).
  apply list_elem_of_In in Hit. apply H in Hit.
  apply String.eqb_neq in Hit. rewrite Hit in E. discriminate.
Qed.

(** *** Fields of the record of a process *)

Lemma step_rec_cpu suffix t r :
  String.eqb suffix "cpu" = true ->
  step_rec load suffix t r =
  set_cpu (detail (load t))
    (if negb (Qle_bool ALMOST_ZERO (summary_mean (load t)))
     then set_is_zero_cpu true r else r).
Proof.
  intros E. unfold step_rec, set_metric, str_in. simpl. by rewrite E.
Qed.

Lemma step_rec_rss suffix t r :
  String.eqb suffix "cpu" = false -> String.eqb suffix "rss" = true ->
  step_rec load suffix t r = set_rss (detail (load t)) r.
Proof.
  intros E1 E2. unfold step_rec, set_metric, str_in. simpl. by rewrite E1, E2.
Qed.

Lemma step_rec_other suffix t r :
  String.eqb suffix "cpu" = false -> String.eqb suffix "rss" = false ->
  step_rec load suffix t r = r.
Proof.
  intros E1 E2. unfold step_rec, set_metric, str_in. simpl. by rewrite E1, E2.
Qed.

Ltac step_rec_cases suffix t r :=
  let Ec := fresh "Ec" in
  let Er := fresh "Er" in
  destruct (String.eqb suffix "cpu") eqn:Ec;
  [ rewrite (step_rec_cpu suffix t r Ec)
  | destruct (String.eqb suffix "rss") eqn:Er;
    [ rewrite (step_rec_rss suffix t r Ec Er)
    | rewrite (step_rec_other suffix t r Ec Er) ] ].

Lemma step_rec_fixed suffix t r :
  process_id (step_rec load suffix t r) = process_id r /\
  r_dead (step_rec load suffix t r) = r_dead r /\
  r_pid (step_rec load suffix t r) = r_pid r /\
  r_name (step_rec load suffix t r) = r_name r.
Proof.
  step_rec_cases suffix t r; [|done..].
  destruct (negb _); done.
Qed.

Lemma record_of_fixed items k :
  process_id (record_of load p items k) = k /\
  r_dead (record_of load p items k) = attr_get (dead p) k (PNum 0) /\
  r_pid (record_of load p items k) = attr_get (pids p) k (PNum 0) /\
  r_name (record_of load p items k) = attr_get (names p) k (PStr "").
Proof.
  induction items as [|[ind t] items IH] using rev_ind; [done|].
  rewrite record_of_snoc. destruct (String.eqb (pid_of ind) k); [|done].
  destruct (step_rec_fixed (suffix_of ind) t (record_of load p items k))
    as (-> & -> & -> & ->). exact IH.
Qed.

Lemma record_of_is_zero items k :
  is_zero_cpu (record_of load p items k) = zero_found load items k.
Proof.
  induction items as [|[ind t] items IH] using rev_ind; [done|].
  rewrite record_of_snoc, zero_found_snoc.
  destruct (String.eqb (pid_of ind) k); simpl; [|by rewrite orb_false_r].
  step_rec_cases (suffix_of ind) t (record_of load p items k); simpl.
  - destruct (negb _); simpl; [by rewrite orb_true_r | by rewrite orb_false_r].
  - by rewrite orb_false_r.
  - by rewrite orb_false_r.
Qed.

Lemma elem_of_snoc_items items ind t (it : string * Track) :
  it ∈ items ++ [(ind, t)] <-> it ∈ items \/ it = (ind, t).
Proof. by rewrite elem_of_app, list_elem_of_singleton. Qed.

(** A metric is attached exactly when the store has a series of the
    process under that suffix, and then it is the detail of one of
    them. *)
Lemma record_of_cpu items k :
  match cpu (record_of load p items k) with
  | Some d => exists it, it ∈ items /\ pid_of (fst it) = k /\
                         suffix_of (fst it) = "cpu" /\ d = detail (load (snd it))
  | None => forall it, it ∈ items -> pid_of (fst it) = k ->
                       suffix_of (fst it) <> "cpu"
  end.
Proof.
  induction items as [|[ind t] items IH] using rev_ind.
  - simpl. intros it H. inversion H.
  - rewrite record_of_snoc.
    assert (Hkeep : forall r, cpu r = cpu (record_of load p items k) ->
      (pid_of ind = k -> suffix_of ind <> "cpu") ->
      match cpu r with
      | Some d => exists it, it ∈ items ++ [(ind, t)] /\ pid_of (fst it) = k /\
                         suffix_of (fst it) = "cpu" /\ d = detail (load (snd it))
      | None => forall it, it ∈ items ++ [(ind, t)] -> pid_of (fst it) = k ->
                       suffix_of (fst it) <> "cpu"
      end).
    { intros r -> Hne. destruct (cpu (record_of load p items k)).
      - destruct IH as (it & Hin & H). exists it. split; [|done].
        apply elem_of_snoc_items. by left.
      - intros it Hit Hk. apply elem_of_snoc_items in Hit as [Hit| ->]; [by apply IH|].
        by apply Hne. }
    destruct (String.eqb (pid_of ind) k) eqn:Ek.
    + apply String.eqb_eq in Ek.
      step_rec_cases (suffix_of ind) t (record_of load p items k).
      * apply String.eqb_eq in Ec. simpl. exists (ind, t).
        split; [apply elem_of_snoc_items; by right | done].
      * apply String.eqb_neq in Ec. by apply Hkeep.
      * apply String.eqb_neq in Ec. by apply Hkeep.
    + apply String.eqb_neq in Ek. by apply Hkeep.
Qed.

Lemma record_of_rss items k :
  match rss (record_of load p items k) with
  | Some d => exists it, it ∈ items /\ pid_of (fst it) = k /\
                         suffix_of (fst it) = "rss" /\ d = detail (load (snd it))
  | None => forall it, it ∈ items -> pid_of (fst it) = k ->
                       suffix_of (fst it) <> "rss"
  end.
Proof.
  induction items as [|[ind t] items IH] using rev_ind.
  - simpl. intros it H. inversion H.
  - rewrite record_of_snoc.
    assert (Hkeep : forall r, rss r = rss (record_of load p items k) ->
      (pid_of ind = k -> suffix_of ind <> "rss") ->
      match rss r with
      | Some d => exists it, it ∈ items ++ [(ind, t)] /\ pid_of (fst it) = k /\
                         suffix_of (fst it) = "rss" /\ d = detail (load (snd it))
      | None => forall it, it ∈ items ++ [(ind, t)] -> pid_of (fst it) = k ->
                       suffix_of (fst it) <> "rss"
      end).
    { intros r -> Hne. destruct (rss (record_of load p items k)).
      - destruct IH as (it & Hin & H). exists it. split; [|done].
        apply elem_of_snoc_items. by left.
      - intros it Hit Hk. apply elem_of_snoc_items in Hit as [Hit| ->]; [by apply IH|].
        by apply Hne. }
    destruct (String.eqb (pid_of ind) k) eqn:Ek.
    + apply String.eqb_eq in Ek.
      step_rec_cases (suffix_of ind) t (record_of load p items k).
      * apply String.eqb_eq in Ec. apply Hkeep.
        -- by destruct (negb _).
        -- intros _. rewrite Ec. discriminate.
      * apply String.eqb_eq in Er. simpl. exists (ind, t).
        split; [apply elem_of_snoc_items; by right | done].
      * apply String.eqb_neq in Er. by apply Hkeep.
    + apply String.eqb_neq in Ek. by apply Hkeep.
Qed.

(** *** One iteration *)

Lemma live_item_dead ind t ls :
  alive p (pid_of ind) = false -> live_item load p ind t ls = Ok ls.
Proof.
  unfold alive, live_item, pid_of. intros H.
  apply negb_false_iff in H. by rewrite H.
Qed.

(** For a process that is not dead, the iteration updates its record in
    place by [step_rec] and, when the key is a cpu series with a mean
    below the threshold, makes [zero_cpu_processes] refer to it. *)
Lemma live_item_alive ind t ls l :
  alive p (pid_of ind) = true ->
  dict_get (pid_of ind) (res (with_record p (pid_of ind) ls)) = Some l ->
  live_item load p ind t ls =
  Ok (mkLiveState
        (alter (step_rec load (suffix_of ind) t) l
               (heap (with_record p (pid_of ind) ls)))
        (res (with_record p (pid_of ind) ls))
        (if found_zero load (suffix_of ind) t
         then dict_set (pid_of ind) l (zero (with_record p (pid_of ind) ls))
         else zero (with_record p (pid_of ind) ls))).
Proof.
  intros Ha Hl. unfold live_item. fold (pid_of ind).
  unfold alive in Ha. apply negb_true_iff in Ha. rewrite Ha.
  rewrite last_seg_split. fold (suffix_of ind). cbn [bind].
  fold (with_record p (pid_of ind) ls).
  set (ls1 := with_record p (pid_of ind) ls) in *.
  unfold found_zero, stash_zero, str_in. cbn [existsb].
  destruct (String.eqb (suffix_of ind) "cpu") eqn:Ec; cbn [orb andb].
  - destruct (negb (Qle_bool ALMOST_ZERO (summary_mean (load t)))) eqn:Ez.
    + rewrite (dict_at_Ok _ _ _ Hl). cbn [bind res heap zero].
      rewrite (dict_at_Ok _ _ _ Hl). cbn [bind res heap zero update_at].
      rewrite (dict_at_Ok _ _ _ Hl). cbn [bind res heap zero update_at].
      unfold update_at. cbn [heap res zero].
      rewrite list_alter_alter_eq. do 2 f_equal.
      apply list_alter_ext; [|done]. intros r _.
      rewrite (step_rec_cpu _ t r Ec). rewrite Ez. unfold set_metric.
      simpl. by rewrite Ec.
    + cbn [bind]. rewrite (dict_at_Ok _ _ _ Hl). cbn [bind]. unfold update_at.
      do 2 f_equal. apply list_alter_ext; [|done]. intros r _.
      rewrite (step_rec_cpu _ t r Ec). rewrite Ez. unfold set_metric.
      by rewrite Ec.
  - destruct (String.eqb (suffix_of ind) "rss") eqn:Er; cbn [orb bind].
    + rewrite (dict_at_Ok _ _ _ Hl). cbn [bind]. unfold update_at.
      do 2 f_equal. apply list_alter_ext; [|done]. intros r _.
      rewrite (step_rec_rss _ t r Ec Er). unfold set_metric. by rewrite Ec.
    + rewrite list_alter_id; [by destruct ls1|].
      intros r. by apply step_rec_other.
Qed.

Lemma found_zero_cpu suffix t :
  found_zero load suffix t = true -> suffix = "cpu".
Proof.
  unfold found_zero. intros H. apply andb_true_iff in H as [H _].
  by apply String.eqb_eq.
Qed.

(** *** The invariant of the loop *)

Lemma live_inv_init : live_inv load p (live_pids p []) [] (mkLiveState [] [] []).
Proof.
  constructor; cbn [heap res zero].
  - done.
  - constructor.
  - done.
  - intros k l H. inversion H.
  - constructor.
  - intros k l H. inversion H.
  - intros k. split; [intros H; inversion H | intros [H _]; inversion H].
Qed.

Lemma live_inv_with_record items ind t ls :
  live_inv load p (live_pids p items) items ls ->
  alive p (pid_of ind) = true ->
  live_inv load p (live_pids p (items ++ [(ind, t)])) items
    (with_record p (pid_of ind) ls).
Proof.
  intros [Hdom Hnd Hlocs Hheap Hzk Hzr Hzd] Ha.
  rewrite live_pids_snoc, Ha. cbn [andb]. unfold with_record.
  destruct (dict_mem (pid_of ind) (res ls)) eqn:Em.
  - apply dict_mem_true in Em. rewrite Hdom in Em.
    apply str_in_true in Em. rewrite Em. cbn [negb]. by constructor.
  - assert (Hk : pid_of ind ∉ (res ls).*1).
    { intros H. apply dict_mem_true in H. congruence. }
    assert (Hk' : pid_of ind ∉ live_pids p items) by (by rewrite <- Hdom).
    apply str_in_false in Hk' as Es. rewrite Es. cbn [negb].
    assert (Hnone : forall it, it ∈ items -> pid_of (fst it) <> pid_of ind).
    { intros it Hit E. apply Hk'. apply elem_of_live_pids. eauto. }
    unfold new_record. constructor; cbn [heap res zero].
    + rewrite (dict_set_fresh _ _ _ Hk), fmap_app, Hdom. done.
    + pose proof (live_pids_NoDup (items ++ [(ind, t)])) as H.
      by rewrite live_pids_snoc, Ha, Es in H.
    + rewrite (dict_set_fresh _ _ _ Hk), fmap_app, Hlocs, length_app.
      simpl. rewrite Nat.add_1_r, seq_S. done.
    + intros k l Hin. rewrite (dict_set_fresh _ _ _ Hk) in Hin.
      apply elem_of_app in Hin as [Hin|Hin].
      * apply lookup_app_l_Some. by apply Hheap.
      * apply list_elem_of_singleton in Hin. injection Hin as -> ->.
        rewrite list_lookup_middle; [|done].
        by rewrite (record_of_untouched items (pid_of ind) Hnone).
    + done.
    + intros k l Hin. rewrite (dict_set_fresh _ _ _ Hk).
      apply elem_of_app. left. by apply Hzr.
    + intros k. rewrite Hzd, elem_of_app, list_elem_of_singleton.
      split; [tauto|]. intros [[H| ->] Hz]; [done|].
      rewrite (zero_found_untouched items (pid_of ind) Hnone) in Hz. discriminate.
Qed.

Lemma live_inv_step items ind t ls :
  live_inv load p (live_pids p items) items ls ->
  exists ls',
    live_item load p ind t ls = Ok ls' /\
    live_inv load p (live_pids p (items ++ [(ind, t)])) (items ++ [(ind, t)]) ls'.
Proof.
  intros Hinv. destruct (alive p (pid_of ind)) eqn:Ha.
  - (* the process is not dead *)
    pose proof (live_inv_with_record items ind t ls Hinv Ha) as Hinv1.
    set (ls1 := with_record p (pid_of ind) ls) in *.
    destruct Hinv1 as [Hdom Hnd Hlocs Hheap Hzk Hzr Hzd].
    assert (Hkeys : NoDup (res ls1).*1) by (by rewrite Hdom).
    assert (Hvals : NoDup (res ls1).*2) by (rewrite Hlocs; apply NoDup_seq).
    assert (Hk : pid_of ind ∈ (res ls1).*1).
    { rewrite Hdom. apply elem_of_live_pids. split; [done|].
      exists (ind, t). split; [|done].
      apply elem_of_app. right. by apply list_elem_of_singleton. }
    apply dict_get_is_Some in Hk as [l Hl].
    pose proof (dict_get_elem _ _ _ Hl) as Hl_in.
    eexists. split; [by apply (live_item_alive ind t ls l)|].
    fold ls1. constructor; cbn [heap res zero].
    + done.
    + done.
    + by rewrite length_alter.
    + intros k l' Hin. rewrite record_of_snoc.
      destruct (String.eqb (pid_of ind) k) eqn:Ek.
      * apply String.eqb_eq in Ek. subst k.
        assert (l' = l) as ->.
        { apply (elem_dict_get _ _ _ Hkeys) in Hin. congruence. }
        rewrite list_lookup_alter_eq, (Hheap _ _ Hin). done.
      * apply String.eqb_neq in Ek.
        rewrite list_lookup_alter_ne; [by apply Hheap|].
        intros ->. apply Ek. by apply (NoDup_snd_key (res ls1) _ _ l').
    + destruct (found_zero load (suffix_of ind) t); [by apply dict_set_NoDup | done].
    + intros k l'. destruct (found_zero load (suffix_of ind) t); [|by apply Hzr].
      intros H. apply dict_set_elem in H as [[= -> ->]|H]; [done | by apply Hzr].
    + intros k. rewrite zero_found_snoc.
      fold (found_zero load (suffix_of ind) t). rewrite <- andb_assoc.
      fold (found_zero load (suffix_of ind) t).
      destruct (found_zero load (suffix_of ind) t).
      * rewrite dict_set_keys_elem, Hzd, andb_true_r. split.
        -- intros [->|[Hk Hz]].
           ++ split; [|by rewrite String.eqb_refl, orb_true_r].
              rewrite <- Hdom. apply dict_get_is_Some. eauto.
           ++ split; [done | by rewrite Hz].
        -- intros [Hk Hz]. apply orb_true_iff in Hz as [Hz|Hz]; [by right|].
           apply String.eqb_eq in Hz. by left.
      * by rewrite andb_false_r, orb_false_r.
  - (* the process is dead: the key is skipped *)
    exists ls. split; [by apply live_item_dead|].
    destruct Hinv as [Hdom Hnd Hlocs Hheap Hzk Hzr Hzd].
    rewrite live_pids_snoc, Ha. cbn [andb].
    assert (Hother : forall k, k ∈ live_pids p items ->
               String.eqb (pid_of ind) k = false).
    { intros k Hk. apply String.eqb_neq. intros <-.
      apply elem_of_live_pids in Hk as [Hk _]. congruence. }
    constructor; try done.
    + intros k l Hin. rewrite record_of_snoc, Hother; [by apply Hheap|].
      rewrite <- Hdom. apply list_elem_of_fmap. by exists (k, l).
    + intros k. rewrite Hzd, zero_found_snoc. split.
      * intros [Hk Hz]. split; [done | by rewrite Hz].
      * intros [Hk Hz]. split; [done|]. by rewrite (Hother k Hk), orb_false_r in Hz.
Qed.

Lemma live_loop_inv rest items ls :
  live_inv load p (live_pids p items) items ls ->
  exists ls',
    live_loop load p rest ls = Ok ls' /\
    live_inv load p (live_pids p (items ++ rest)) (items ++ rest) ls'.
Proof.
  revert items ls. induction rest as [|[ind t] rest IH]; intros items ls Hinv.
  - exists ls. rewrite app_nil_r. by split.
  - cbn [live_loop].
    destruct (live_inv_step items ind t ls Hinv) as (ls1 & -> & Hinv1).
    cbn [bind].
    destruct (IH (items ++ [(ind, t)]) ls1 Hinv1) as (ls' & Hl & Hinv').
    exists ls'. split; [done|]. by rewrite <- app_assoc in Hinv'.
Qed.

(** The first loop of [get_tracking] never raises, and ends with the
    objects described by [live_inv] for the whole store. *)
Lemma live_loop_total :
  exists ls,
    live_loop load p (tracking p) (mkLiveState [] [] []) = Ok ls /\
    live_inv load p (live_pids p (tracking p)) (tracking p) ls.
Proof. exact (live_loop_inv (tracking p) [] _ live_inv_init). Qed.

(** *** Selection and the summary loop *)

Lemma live_select_elem (h : list ProcRec) (d : list (string * nat)) l :
  l ∈ live_select h d <-> exists k, (k, l) ∈ d /\ ranked (h !!! l) = true.
Proof.
  induction d as [|[k0 l0] d IH]; simpl.
  - split; [intros H; inversion H | intros (k & H & _); inversion H].
  - destruct (ranked (h !!! l0)) eqn:E.
    + rewrite elem_of_cons, IH. split.
      * intros [->|(k & H & Hr)]; [exists k0; split; [left | done]|].
        exists k. split; [by right | done].
      * intros (k & H & Hr). apply elem_of_cons in H as [[= -> ->]|H]; [by left|].
        right. eauto.
    + rewrite IH. split.
      * intros (k & H & Hr). exists k. split; [by right | done].
      * intros (k & H & Hr). apply elem_of_cons in H as [[= -> ->]|H]; [congruence|].
        eauto.
Qed.

Lemma live_select_NoDup (h : list ProcRec) (d : list (string * nat)) :
  NoDup d.*2 -> NoDup (live_select h d).
Proof.
  induction d as [|[k0 l0] d IH]; simpl; intros Hnd; [constructor|].
  apply NoDup_cons in Hnd as [Hl0 Hnd].
  destruct (ranked (h !!! l0)); [|by apply IH].
  apply NoDup_cons. split; [|by apply IH].
  intros H. apply live_select_elem in H as (k & H & _).
  apply Hl0. apply list_elem_of_fmap. by exists (k, l0).
Qed.

Lemma live_select_deref (h : list ProcRec) (d : list (string * nat))
    (f : string -> ProcRec) :
  (forall k l, (k, l) ∈ d -> h !!! l = f k) ->
  deref h <$> live_select h d = List.filter ranked (f <$> d.*1).
Proof.
  induction d as [|[k0 l0] d IH]; simpl; intros Hf; [done|].
  rewrite <- (Hf k0 l0) by left.
  assert (IH' : deref h <$> live_select h d = List.filter ranked (f <$> d.*1)).
  { apply IH. intros k l H. apply Hf. by right. }
  destruct (ranked (h !!! l0)); simpl; [f_equal|]; exact IH'.
Qed.

Lemma named_fixed r :
  process_id (named r) = process_id r /\
  is_zero_cpu (named r) = is_zero_cpu r /\
  rss (named r) = rss r /\
  r_name (named r) = r_name r /\
  cpu (named r) = set_d_name (r_name r) <$> cpu r /\
  last_smoothed_cpu (named r) = last_smoothed_cpu r /\
  ranked (named r) = ranked r.
Proof.
  unfold named, last_smoothed_cpu, ranked.
  destruct (cpu r) as [d|] eqn:E; simpl; rewrite ?E; [|done].
  repeat split.
Qed.

Lemma attach_name_Ok r d : cpu r = Some d -> attach_name r = Ok (named r).
Proof. unfold attach_name, named. by intros ->. Qed.

(** The summary loop names the cpu detail of each record of [top] once,
    touches no other record, and lists [top] in order. *)
Lemma summary_loop_spec (top : list nat) (h : list ProcRec) (acc : list nat) :
  NoDup top ->
  (forall l, l ∈ top -> exists r d, h !! l = Some r /\ cpu r = Some d) ->
  exists h',
    summary_loop top h acc = Ok (h', acc ++ top) /\
    (forall l, l ∈ top -> h' !!! l = named (h !!! l)) /\
    (forall l, l ∉ top -> h' !!! l = h !!! l).
Proof.
  revert h acc. induction top as [|l top IH]; intros h acc Hnd Hcpu.
  - exists h. simpl. rewrite app_nil_r. split; [done|].
    split; [intros l H; inversion H | done].
  - apply NoDup_cons in Hnd as [Hl Hnd].
    destruct (Hcpu l) as (r & d & Hr & Hd); [left|].
    cbn [summary_loop]. rewrite (list_lookup_total_correct _ _ _ Hr).
    rewrite (attach_name_Ok r d Hd). cbn [bind].
    destruct (IH (<[l := named r]> h) (acc ++ [l]) Hnd) as (h' & Hrun & Hin & Hout).
    { intros l' Hl'. assert (l <> l') by (intros ->; done).
      rewrite list_lookup_insert_ne by done. apply Hcpu. by right. }
    exists h'. rewrite <- app_assoc in Hrun. split; [exact Hrun|]. split.
    + intros l' Hl'. apply elem_of_cons in Hl' as [->|Hl'].
      * rewrite (Hout l Hl). rewrite list_lookup_total_insert_eq.
        -- by rewrite (list_lookup_total_correct _ _ _ Hr).
        -- by apply lookup_lt_Some in Hr.
      * rewrite (Hin l' Hl'). assert (l <> l') by (intros ->; done).
        by rewrite list_lookup_total_insert_ne.
    + intros l' Hl'. apply not_elem_of_cons in Hl' as [Hne Hl'].
      rewrite (Hout l' Hl'). by rewrite list_lookup_total_insert_ne.
Qed.

Lemma omap_fmap_compose {A B C} (f : B -> option C) (g : A -> B) (l : list A) :
  omap f (g <$> l) = omap (fun x => f (g x)) l.
Proof.
  induction l as [|x l IH]; [done|]. csimpl. rewrite IH. done.
Qed.



(** *** What a call of [get_tracking] returns and saves

    When the call returns: the ranked list is the qualifying records in
    descending order of the key, the first five with the name in their
    cpu detail; the summary is the cpu details of the first five; the
    saved cache holds, for exactly the live processes found zero-cpu,
    the record made in this call. *)
Lemma get_tracking_spec ret summary p' :
  get_tracking load p = Ok ((ret, summary), p') ->
  exists recs zs,
    recs ≡ₚ ranked_records load p /\
    ranked_desc recs /\
    ret = (named <$> take 5 recs) ++ drop 5 recs /\
    summary = omap cpu (take 5 ret) /\
    p' = set_zero_cpu_processes
           ((fun k => (k, record_of load p (tracking p) k)) <$> zs) p /\
    NoDup zs /\
    (forall k, k ∈ zs <->
               k ∈ live_pids p (tracking p) /\
               zero_found load (tracking p) k = true).
Proof.
  destruct live_loop_total as (ls & Hrun & Hinv).
  unfold get_tracking. rewrite Hrun. cbn [bind].
  destruct Hinv as [Hdom Hnd Hlocs Hheap Hzk Hzr Hzd].
  set (ret0 := live_select (heap ls) (res ls)).
  assert (Hrec : forall k l, (k, l) ∈ res ls ->
            heap ls !!! l = record_of load p (tracking p) k).
  { intros k l H. apply list_lookup_total_correct. by apply Hheap. }
  assert (Hret0 : deref (heap ls) <$> ret0 = ranked_records load p).
  { unfold ranked_records. rewrite <- Hdom. by apply live_select_deref. }
  assert (Hnd0 : NoDup ret0).
  { apply live_select_NoDup. rewrite Hlocs. apply NoDup_seq. }
  destruct (sort_by_key_desc _ ret0) as [locs|e] eqn:Hs; cbn [bind]; [|discriminate].
  apply sort_by_key_desc_Ok in Hs as [Hperm Hsorted].
  assert (Hndl : NoDup locs) by (by rewrite Hperm).
  assert (Hsplit : NoDup (take 5 locs ++ drop 5 locs)) by (by rewrite take_drop).
  apply NoDup_app in Hsplit as (Hnd5 & Hdisj & _).
  assert (Hloc : forall l, l ∈ locs ->
            exists k, (k, l) ∈ res ls /\ ranked (heap ls !!! l) = true).
  { intros l Hl. rewrite Hperm in Hl. by apply live_select_elem in Hl. }
  assert (Htake : forall l, l ∈ take 5 locs -> l ∈ locs).
  { intros l Hl. apply elem_of_take in Hl as (i & Hi & _).
    by apply list_elem_of_lookup_2 in Hi. }
  destruct (summary_loop_spec (take 5 locs) (heap ls) [] Hnd5)
    as (h' & Hsl & Hin & Hout).
  { intros l Hl. destruct (Hloc l (Htake l Hl)) as (k & Hk & Hr).
    pose proof (Hheap k l Hk) as Hh.
    rewrite (list_lookup_total_correct _ _ _ Hh) in Hr.
    unfold ranked in Hr. destruct (cpu (record_of load p (tracking p) k)) as [d|] eqn:Ed.
    - eauto.
    - by rewrite orb_true_r in Hr. }
  rewrite Hsl. cbn [bind app]. intros [= <- <- <-].
  exists (deref (heap ls) <$> locs), (zero ls).*1.
  assert (Hret : deref h' <$> locs =
                 (named <$> take 5 (deref (heap ls) <$> locs))
                 ++ drop 5 (deref (heap ls) <$> locs)).
  { rewrite <- (take_drop 5 locs) at 1. rewrite fmap_app. f_equal.
    - rewrite <- fmap_take, <- list_fmap_compose. apply list_fmap_ext.
      intros i l Hl. apply Hin. by apply list_elem_of_lookup_2 in Hl.
    - rewrite <- fmap_drop. apply list_fmap_ext.
      intros i l Hl. apply Hout. intros H5. apply (Hdisj l H5).
      by apply list_elem_of_lookup_2 in Hl. }
  split; [by rewrite Hperm, Hret0|]. split.
  { unfold ranked_desc. eapply StronglySorted_fmap; [|exact Hsorted].
    intros x y (qa & qb & Ha & Hb & Hle). exists qa, qb.
    unfold rank_key, deref. by rewrite Ha, Hb. }
  split; [exact Hret|]. split.
  { unfold deref_summary. rewrite <- fmap_take. by rewrite omap_fmap_compose. }
  split; [|split; [exact Hzk | exact Hzd]].
  f_equal. unfold deref_dict. rewrite <- list_fmap_compose.
  apply list_fmap_ext. intros i [k l] Hkl. simpl.
  apply list_elem_of_lookup_2 in Hkl. f_equal.
  assert (Hk : k ∈ (zero ls).*1) by (apply list_elem_of_fmap; by exists (k, l)).
  apply Hzd in Hk as [_ Hz]. apply Hzr in Hkl.
  rewrite <- (Hrec k l Hkl). apply Hout. intros H5.
  destruct (Hloc l (Htake l H5)) as (k' & _ & Hr).
  rewrite (Hrec k l Hkl) in Hr. unfold ranked in Hr.
  by rewrite record_of_is_zero, Hz in Hr.
Qed.

(** The call returns exactly when every qualifying record has a ranking
    key; the first loop and the summary loop never raise. *)
Lemma get_tracking_total :
  Forall (fun r => exists q, last_smoothed_cpu r = Ok q) (ranked_records load p) ->
  exists out, get_tracking load p = Ok out.
Proof.
  intros Hkeys. destruct (get_tracking load p) as [out|e] eqn:Hg; [eauto|].
  exfalso. revert Hg.
  destruct live_loop_total as (ls & Hrun & Hinv).
  unfold get_tracking. rewrite Hrun. cbn [bind].
  destruct Hinv as [Hdom Hnd Hlocs Hheap Hzk Hzr Hzd].
  set (ret0 := live_select (heap ls) (res ls)).
  assert (Hrec : forall k l, (k, l) ∈ res ls ->
            heap ls !!! l = record_of load p (tracking p) k).
  { intros k l H. apply list_lookup_total_correct. by apply Hheap. }
  assert (Hret0 : deref (heap ls) <$> ret0 = ranked_records load p).
  { unfold ranked_records. rewrite <- Hdom. by apply live_select_deref. }
  destruct (sort_by_key_desc_total
              (fun l => last_smoothed_cpu (heap ls !!! l)) ret0) as [locs Hs].
  { rewrite Forall_forall in Hkeys. rewrite Forall_forall. intros l Hl.
    apply Hkeys. rewrite <- Hret0. apply list_elem_of_fmap. by exists l. }
  rewrite Hs. cbn [bind].
  apply sort_by_key_desc_Ok in Hs as [Hperm _].
  assert (Hnd0 : NoDup ret0).
  { apply live_select_NoDup. rewrite Hlocs. apply NoDup_seq. }
  assert (Hndl : NoDup locs) by (by rewrite Hperm).
  assert (Hsplit : NoDup (take 5 locs ++ drop 5 locs)) by (by rewrite take_drop).
  apply NoDup_app in Hsplit as (Hnd5 & _ & _).
  destruct (summary_loop_spec (take 5 locs) (heap ls) [] Hnd5)
    as (h' & Hsl & _ & _).
  { intros l Hl. apply elem_of_take in Hl as (i & Hi & _).
    apply list_elem_of_lookup_2 in Hi. rewrite Hperm in Hi.
    apply live_select_elem in Hi as (k & Hk & Hr).
    pose proof (Hheap k l Hk) as Hh.
    rewrite (list_lookup_total_correct _ _ _ Hh) in Hr.
    unfold ranked in Hr. destruct (cpu (record_of load p (tracking p) k)) as [d|] eqn:Ed.
    - eauto.
    - by rewrite orb_true_r in Hr. }
  rewrite Hsl. cbn [bind]. discriminate.
Qed.

Lemma get_tracking_raises r e :
  r ∈ ranked_records load p -> last_smoothed_cpu r = Raise e ->
  exists e', get_tracking load p = Raise e'.
Proof.
  intros Hr He.
  destruct live_loop_total as (ls & Hrun & Hinv).
  unfold get_tracking. rewrite Hrun. cbn [bind].
  destruct Hinv as [Hdom Hnd Hlocs Hheap Hzk Hzr Hzd].
  set (ret0 := live_select (heap ls) (res ls)).
  assert (Hret0 : deref (heap ls) <$> ret0 = ranked_records load p).
  { unfold ranked_records. rewrite <- Hdom. apply live_select_deref.
    intros k l H. apply list_lookup_total_correct. by apply Hheap. }
  rewrite <- Hret0 in Hr. apply list_elem_of_fmap in Hr as (l & -> & Hl).
  match goal with
  | |- context [sort_by_key_desc ?key ret0] =>
      destruct (sort_by_key_desc_Raise key ret0 l e Hl He) as [e' He']
  end.
  exists e'. by rewrite He'.
Qed.

(** *** The vocabulary of the properties, on the loop *)

Lemma alive_not_dead k : alive p k = true <-> ~ marked_dead p k.
Proof.
  unfold alive, marked_dead, attr_get. rewrite negb_true_iff.
  destruct (dead p !! k) as [v|]; simpl.
  - split.
    + intros Hv (v' & [= <-] & Hv'). congruence.
    + intros H. apply not_true_is_false. intros Hv. apply H. eauto.
  - split; [|done]. intros _ (v & Hv & _). discriminate.
Qed.

Lemma below_threshold (m : Q) :
  negb (Qle_bool ALMOST_ZERO m) = true <-> (m < ALMOST_ZERO)%Q.
Proof.
  rewrite negb_true_iff. split.
  - intros H. apply Qnot_le_lt. intros Hle.
    apply Qle_bool_iff in Hle. congruence.
  - intros H. apply not_true_is_false. intros Hle.
    apply Qle_bool_iff in Hle. by apply Qlt_not_le in H.
Qed.

Lemma zero_found_series k :
  zero_found load (tracking p) k = true <-> zero_series load p k.
Proof.
  unfold zero_found, zero_series. rewrite existsb_exists. split.
  - intros ([ind t] & Hin & H). simpl in H.
    apply andb_true_iff in H as [H Hz]. apply andb_true_iff in H as [Hk Hs].
    apply String.eqb_eq in Hk, Hs. apply below_threshold in Hz.
    apply list_elem_of_In in Hin. exists ind, t. done.
  - intros (ind & t & Hin & Hk & Hs & Hz). exists (ind, t).
    split; [by apply list_elem_of_In|]. simpl.
    apply String.eqb_eq in Hk, Hs. apply below_threshold in Hz.
    by rewrite Hk, Hs, Hz.
Qed.

Lemma cpu_attached k :
  cpu (record_of load p (tracking p) k) <> None <-> has_series p k "cpu".
Proof.
  pose proof (record_of_cpu (tracking p) k) as H. unfold has_series.
  destruct (cpu (record_of load p (tracking p) k)) as [d|].
  - split; [intros _ | done].
    destruct H as ([ind t] & Hin & Hk & Hs & _). by exists ind, t.
  - split; [done|]. intros (ind & t & Hin & Hk & Hs).
    by destruct (H (ind, t) Hin Hk).
Qed.

Lemma rss_attached k :
  rss (record_of load p (tracking p) k) <> None <-> has_series p k "rss".
Proof.
  pose proof (record_of_rss (tracking p) k) as H. unfold has_series.
  destruct (rss (record_of load p (tracking p) k)) as [d|].
  - split; [intros _ | done].
    destruct H as ([ind t] & Hin & Hk & Hs & _). by exists ind, t.
  - split; [done|]. intros (ind & t & Hin & Hk & Hs).
    by destruct (H (ind, t) Hin Hk).
Qed.

Lemma zero_series_has_cpu k : zero_series load p k -> has_series p k "cpu".
Proof. intros (ind & t & Hin & Hk & Hs & _). by exists ind, t. Qed.

Lemma zero_series_live k :
  ~ marked_dead p k -> zero_series load p k -> k ∈ live_pids p (tracking p).
Proof.
  intros Hd (ind & t & Hin & Hk & _). apply elem_of_live_pids.
  split; [by apply alive_not_dead|]. by exists (ind, t).
Qed.

Lemma ranked_complete r :
  ranked r = true <->
  is_zero_cpu r = false /\ cpu r <> None /\ rss r <> None.
Proof.
  unfold ranked. destruct (is_zero_cpu r), (cpu r), (rss r); simpl;
    split; try done; intros (? & ? & ?); done.
Qed.

Lemma elem_of_ranked_records r :
  r ∈ ranked_records load p <->
  exists k, k ∈ live_pids p (tracking p) /\
            r = record_of load p (tracking p) k /\ ranked r = true.
Proof.
  unfold ranked_records. rewrite list_elem_of_In, filter_In, <- list_elem_of_In.
  rewrite list_elem_of_fmap. split.
  - intros [(k & -> & Hk) Hr]. eauto.
  - intros (k & Hk & -> & Hr). eauto.
Qed.

(** *** Members of the outputs of [get_tracking] *)

Lemma get_tracking_ret_elem ret summary p' r :
  get_tracking load p = Ok ((ret, summary), p') -> r ∈ ret ->
  exists k,
    k ∈ live_pids p (tracking p) /\
    ranked (record_of load p (tracking p) k) = true /\
    (r = record_of load p (tracking p) k \/
     r = named (record_of load p (tracking p) k)).
Proof.
  intros Hg Hr.
  destruct (get_tracking_spec ret summary p' Hg)
    as (recs & zs & Hperm & _ & -> & _).
  assert (Hsub : forall r0, r0 ∈ recs ->
            exists k, k ∈ live_pids p (tracking p) /\
              r0 = record_of load p (tracking p) k /\ ranked r0 = true).
  { intros r0 H0. rewrite Hperm in H0. by apply elem_of_ranked_records. }
  apply elem_of_app in Hr as [Hr|Hr].
  - apply list_elem_of_fmap in Hr as (r0 & -> & H0).
    apply elem_of_take in H0 as (i & Hi & _). apply list_elem_of_lookup_2 in Hi.
    destruct (Hsub r0 Hi) as (k & Hk & -> & Hrk). exists k. auto.
  - assert (H0 : r ∈ recs).
    { rewrite <- (take_drop 5 recs). apply elem_of_app. by right. }
    destruct (Hsub r H0) as (k & Hk & -> & Hrk). exists k. auto.
Qed.

Lemma get_tracking_cache_elem ret summary p' k r :
  get_tracking load p = Ok ((ret, summary), p') ->
  (k, r) ∈ zero_cpu_processes p' <->
  k ∈ live_pids p (tracking p) /\
  zero_found load (tracking p) k = true /\
  r = record_of load p (tracking p) k.
Proof.
  intros Hg.
  destruct (get_tracking_spec ret summary p' Hg)
    as (recs & zs & _ & _ & _ & _ & -> & _ & Hzs).
  simpl. rewrite list_elem_of_fmap. split.
  - intros (k' & [= <- ->] & Hk). apply Hzs in Hk as [H1 H2]. done.
  - intros (H1 & H2 & ->). exists k. split; [done|]. by apply Hzs.
Qed.

(** *** [get_zero_cpu_processes] *)

Lemma zero_select_elem (d : list (string * ProcRec)) r :
  r ∈ zero_select d <-> exists k, (k, r) ∈ d /\ complete r = true.
Proof.
  induction d as [|[k0 r0] d IH]; simpl.
  - split; [intros H; inversion H | intros (k & H & _); inversion H].
  - destruct (complete r0) eqn:E.
    + rewrite elem_of_cons, IH. split.
      * intros [->|(k & H & Hr)]; [exists k0; split; [left | done]|].
        exists k. split; [by right | done].
      * intros (k & H & Hr). apply elem_of_cons in H as [[= -> ->]|H]; [by left|].
        right. eauto.
    + rewrite IH. split.
      * intros (k & H & Hr). exists k. split; [by right | done].
      * intros (k & H & Hr). apply elem_of_cons in H as [[= -> ->]|H]; [congruence|].
        eauto.
Qed.

Lemma complete_both r :
  complete r = true <-> cpu r <> None /\ rss r <> None.
Proof.
  unfold complete. destruct (cpu r), (rss r); simpl;
    split; try done; intros (? & ?); done.
Qed.

Lemma get_zero_elem (q : ProcessModel Track) z r :
  get_zero_cpu_processes q = Ok z ->
  r ∈ z <-> exists k, (k, r) ∈ zero_cpu_processes q /\ complete r = true.
Proof.
  unfold get_zero_cpu_processes. intros Hs.
  apply sort_by_key_desc_Ok in Hs as [Hperm _].
  rewrite Hperm. apply zero_select_elem.
Qed.

Lemma get_zero_total (q : ProcessModel Track) :
  (forall k r d, (k, r) ∈ zero_cpu_processes q -> cpu r = Some d ->
                 smoothed d <> []) ->
  exists z, get_zero_cpu_processes q = Ok z.
Proof.
  intros Hne. apply sort_by_key_desc_total. rewrite Forall_forall.
  intros r Hr. apply zero_select_elem in Hr as (k & Hk & Hc).
  apply complete_both in Hc as [Hc _]. unfold last_smoothed_cpu.
  destruct (cpu r) as [d|] eqn:Ed; [|done].
  pose proof (Hne k r d Hk Ed) as Hd.
  destruct (smoothed d); [done | eauto].
Qed.

(** With non-empty smoothed cpu sequences, every cpu detail attached by
    the loop has a last element. *)
Lemma record_of_key k :
  smoothed_nonempty load p ->
  forall d, cpu (record_of load p (tracking p) k) = Some d -> smoothed d <> [].
Proof.
  intros Hne d Hd. pose proof (record_of_cpu (tracking p) k) as H.
  rewrite Hd in H. destruct H as ([ind t] & Hin & _ & Hs & ->).
  by apply (Hne ind t).
Qed.

Lemma get_tracking_returns :
  smoothed_nonempty load p ->
  exists ret summary p', get_tracking load p = Ok ((ret, summary), p').
Proof.
  intros Hne. destruct get_tracking_total as [[[ret summary] p'] Hg]; [|eauto].
  rewrite Forall_forall. intros r Hr.
  apply elem_of_ranked_records in Hr as (k & _ & -> & Hr).
  apply ranked_complete in Hr as (_ & Hc & _). unfold last_smoothed_cpu.
  destruct (cpu (record_of load p (tracking p) k)) as [d|] eqn:Ed; [|done].
  pose proof (record_of_key k Hne d Ed) as Hd.
  destruct (smoothed d); [done | eauto].
Qed.

Lemma get_zero_after_returns ret summary p' :
  smoothed_nonempty load p ->
  get_tracking load p = Ok ((ret, summary), p') ->
  exists z, get_zero_cpu_processes p' = Ok z.
Proof.
  intros Hne Hg. apply get_zero_total. intros k r d Hk Hd.
  apply (get_tracking_cache_elem ret summary p' k r Hg) in Hk as (_ & _ & ->).
  by apply (record_of_key k Hne).
Qed.

(** *** The properties of the live table and of the zero-cpu cache *)

(** C1.  Zero-cpu partition.  For a process that is not marked dead and
    has a cpu series whose mean is below [ALMOST_ZERO]: whenever
    [get_tracking] returns, its ranked list has no record of the
    process, and a following [get_zero_cpu_processes] that returns
    lists a record of the process, provided the process also has an rss
    series (its record then has both details; the cpu detail it has
    anyway).  Both calls do return when every cpu series loads to a
    non-empty smoothed sequence. *)
Theorem zero_cpu_partition k :
  ~ marked_dead p k -> zero_series load p k ->
  (forall ret summary p',
      get_tracking load p = Ok ((ret, summary), p') ->
      (forall r, r ∈ ret -> process_id r <> k) /\
      (has_series p k "rss" ->
       forall z, get_zero_cpu_processes p' = Ok z ->
                 exists r, r ∈ z /\ process_id r = k /\
                           cpu r <> None /\ rss r <> None)) /\
  (smoothed_nonempty load p ->
   exists ret summary p' z,
     get_tracking load p = Ok ((ret, summary), p') /\
     get_zero_cpu_processes p' = Ok z).
Proof.
  intros Hd Hz. split.
  - intros ret summary p' Hg. split.
    + intros r Hr Hk.
      destruct (get_tracking_ret_elem ret summary p' r Hg Hr)
        as (k' & _ & Hrk & Hcase).
      assert (k' = k) as ->.
      { destruct (record_of_fixed (tracking p) k') as (Hid & _).
        destruct (named_fixed (record_of load p (tracking p) k')) as (Hn & _).
        destruct Hcase as [->| ->]; congruence. }
      apply ranked_complete in Hrk as (Hnz & _).
      rewrite record_of_is_zero in Hnz.
      apply zero_found_series in Hz. congruence.
    + intros Hrss z Hzq.
      exists (record_of load p (tracking p) k).
      destruct (record_of_fixed (tracking p) k) as (Hid & _).
      assert (Hc : cpu (record_of load p (tracking p) k) <> None).
      { apply cpu_attached. by apply zero_series_has_cpu. }
      assert (Hr : rss (record_of load p (tracking p) k) <> None).
      { by apply rss_attached. }
      split; [|done].
      apply (get_zero_elem p' z _ Hzq). exists k. split.
      * apply (get_tracking_cache_elem ret summary p' k _ Hg).
        split; [by apply zero_series_live|]. split; [|done].
        by apply zero_found_series.
      * by apply complete_both.
  - intros Hne. destruct (get_tracking_returns Hne) as (ret & summary & p' & Hg).
    destruct (get_zero_after_returns ret summary p' Hne Hg) as [z Hzq].
    by exists ret, summary, p', z.
Qed.

Lemma summary_of_top (l : list ProcRec) (P : ProcRec -> Detail -> Prop) :
  Forall (fun r => exists d, cpu r = Some d /\ P r d) l ->
  Forall2 (fun r d => cpu r = Some d /\ P r d) l (omap cpu l).
Proof.
  induction 1 as [|r l (d & Hc & HP) _ IH]; [constructor|].
  csimpl. rewrite Hc. simpl. constructor; [done | exact IH].
Qed.

(** C3.  Dead exclusion.  For a process whose entry in the [dead] map is
    truthy, whatever series the store holds for it: the ranked list
    returned by [get_tracking] has no record of the process, and every
    entry of the summary is the cpu detail of one of the first five
    records of that list, none of which is a record of the process. *)
Theorem dead_excluded k ret summary p' :
  marked_dead p k ->
  get_tracking load p = Ok ((ret, summary), p') ->
  (forall r, r ∈ ret -> process_id r <> k) /\
  Forall2 (fun r d => cpu r = Some d /\ process_id r <> k) (take 5 ret) summary.
Proof.
  intros Hd Hg.
  assert (Hret : forall r, r ∈ ret ->
            exists d, cpu r = Some d /\ process_id r <> k).
  { intros r Hr. assert (cpu r <> None /\ process_id r <> k) as [Hc Hk];
      [|destruct (cpu r) as [d|]; [by exists d | done]].
    destruct (get_tracking_ret_elem ret summary p' r Hg Hr)
      as (k' & Hk' & Hrk & Hcase).
    apply ranked_complete in Hrk as (_ & Hc & _).
    destruct (record_of_fixed (tracking p) k') as (Hid & _).
    destruct (named_fixed (record_of load p (tracking p) k'))
      as (Hn & _ & _ & _ & Hcn & _).
    assert (Hne : k' <> k).
    { intros ->. apply elem_of_live_pids in Hk' as [Ha _].
      by apply alive_not_dead in Ha. }
    destruct Hcase as [->| ->]; split; try congruence.
    rewrite Hcn. by destruct (cpu (record_of load p (tracking p) k')). }
  split; [intros r Hr; by destruct (Hret r Hr) as (_ & _ & ?)|].
  destruct (get_tracking_spec ret summary p' Hg)
    as (recs & zs & _ & _ & _ & -> & _).
  apply (summary_of_top _ (fun r _ => process_id r <> k)).
  apply Forall_take. rewrite Forall_forall.
  intros r Hr. by apply Hret.
Qed.


(** C5.  Completeness filter.  Every record of the ranked list of
    [get_tracking] has both a cpu and an rss detail, and so has every
    record returned by [get_zero_cpu_processes], each of which is an
    entry of the cache.  In particular a process without a cpu series, or
    without an rss series, has no record in the ranked list, nor in the
    list of a following [get_zero_cpu_processes]. *)
Theorem completeness_filter :
  (forall ret summary p',
      get_tracking load p = Ok ((ret, summary), p') ->
      (forall r, r ∈ ret -> cpu r <> None /\ rss r <> None) /\
      (forall k,
          ~ has_series p k "cpu" \/ ~ has_series p k "rss" ->
          (forall r, r ∈ ret -> process_id r <> k) /\
          (forall z, get_zero_cpu_processes p' = Ok z ->
                     forall r, r ∈ z -> process_id r <> k))) /\
  (forall (q : ProcessModel Track) z,
      get_zero_cpu_processes q = Ok z ->
      forall r, r ∈ z ->
                (exists k, (k, r) ∈ zero_cpu_processes q) /\
                cpu r <> None /\ rss r <> None).
Proof.
  split.
  - intros ret summary p' Hg.
    assert (Hret : forall r, r ∈ ret ->
              cpu r <> None /\ rss r <> None /\
              has_series p (process_id r) "cpu" /\
              has_series p (process_id r) "rss").
    { intros r Hr.
      destruct (get_tracking_ret_elem ret summary p' r Hg Hr)
        as (k' & Hk' & Hrk & Hcase).
      apply ranked_complete in Hrk as (_ & Hc & Hr').
      destruct (record_of_fixed (tracking p) k') as (Hid & _).
      destruct (named_fixed (record_of load p (tracking p) k'))
        as (Hn & _ & Hrn & _ & Hcn & _).
      assert (Hs1 := proj1 (cpu_attached k') Hc).
      assert (Hs2 := proj1 (rss_attached k') Hr').
      destruct Hcase as [->| ->].
      - rewrite Hid. done.
      - rewrite Hn, Hid, Hrn, Hcn. split; [|done].
        by destruct (cpu (record_of load p (tracking p) k')). }
    split; [intros r Hr; destruct (Hret r Hr) as (? & ? & _); done|].
    intros k Hmiss. split.
    + intros r Hr <-. destruct (Hret r Hr) as (_ & _ & H1 & H2). tauto.
    + intros z Hz r Hr <-.
      apply (get_zero_elem p' z r Hz) in Hr as (k & Hk & Hc).
      apply (get_tracking_cache_elem ret summary p' k r Hg) in Hk as (_ & _ & ->).
      apply complete_both in Hc as [Hc Hr].
      apply cpu_attached in Hc. apply rss_attached in Hr.
      destruct (record_of_fixed (tracking p) k) as (Hid & _).
      rewrite Hid in Hmiss. tauto.
  - intros q z Hz r Hr.
    apply (get_zero_elem q z r Hz) in Hr as (k & Hk & Hc).
    apply complete_both in Hc. split; [eauto | done].
Qed.

(** C6.  Full rebuild of the cache.  When [get_tracking] returns, the
    model it leaves is the old one with [zero_cpu_processes] replaced:
    the keys of the new cache are exactly the processes that are not
    marked dead and have, in the series store of this call, a cpu series
    with a mean below [ALMOST_ZERO] (whatever the cache held before),
    each once, and the entry of such a process is the record made in this
    call, whose cpu detail is the detail of a cpu series of the process
    as loaded in this call. *)
Theorem cache_rebuilt ret summary p' :
  get_tracking load p = Ok ((ret, summary), p') ->
  p' = set_zero_cpu_processes (zero_cpu_processes p') p /\
  NoDup (zero_cpu_processes p').*1 /\
  (forall k, k ∈ (zero_cpu_processes p').*1 <->
             ~ marked_dead p k /\ zero_series load p k) /\
  (forall k r, (k, r) ∈ zero_cpu_processes p' ->
     r = record_of load p (tracking p) k /\
     exists ind t,
       (ind, t) ∈ tracking p /\ pid_of ind = k /\ suffix_of ind = "cpu" /\
       cpu r = Some (detail (load t))).
Proof.
  intros Hg.
  destruct (get_tracking_spec ret summary p' Hg)
    as (recs & zs & _ & _ & _ & _ & Hp' & Hnd & Hzs).
  assert (Hkeys : (zero_cpu_processes p').*1 = zs).
  { rewrite Hp'. simpl. rewrite <- list_fmap_compose.
    rewrite <- (list_fmap_id zs) at 2. by apply list_fmap_ext. }
  split; [by rewrite Hp'|]. split; [by rewrite Hkeys|]. split.
  - intros k. rewrite Hkeys, Hzs, elem_of_live_pids, alive_not_dead,
      zero_found_series. split; [tauto|]. intros [Hd Hz].
    split; [|done]. split; [done|].
    destruct Hz as (ind & t & Hin & Hk & _). by exists (ind, t).
  - intros k r Hkr.
    apply (get_tracking_cache_elem ret summary p' k r Hg) in Hkr
      as (Hk & Hz & ->).
    split; [done|].
    pose proof (record_of_cpu (tracking p) k) as Hc.
    destruct (cpu (record_of load p (tracking p) k)) as [d|] eqn:Ed.
    + destruct Hc as ([ind t] & Hin & Hpk & Hs & ->). by exists ind, t.
    + apply zero_found_series, zero_series_has_cpu, cpu_attached in Hz.
      congruence.
Qed.

(** C10.  Sharing of the stashed record.  At the end of the first loop
    of [get_tracking] every entry of [zero_cpu_processes] refers to the
    location that [res] has for the same process; so, when the call
    returns, every entry of the saved cache is the record of its process
    as the whole pass left it: its [is_zero_cpu] flag is set, it has a
    cpu detail, and it has an rss detail exactly when the store holds an
    rss series of the process, whether that series was visited before
    or after the record was stashed. *)
Theorem stashed_record_shared ret summary p' :
  get_tracking load p = Ok ((ret, summary), p') ->
  (exists ls,
      live_loop load p (tracking p) (mkLiveState [] [] []) = Ok ls /\
      forall k l, (k, l) ∈ zero ls -> dict_get k (res ls) = Some l) /\
  (forall k r, (k, r) ∈ zero_cpu_processes p' ->
     r = record_of load p (tracking p) k /\
     process_id r = k /\
     is_zero_cpu r = true /\
     cpu r <> None /\
     (rss r <> None <-> has_series p k "rss")).
Proof.
  intros Hg. split.
  - destruct live_loop_total as (ls & Hrun & Hinv). exists ls.
    split; [done|]. intros k l Hkl.
    destruct Hinv as [Hdom Hnd _ _ _ Hzr _].
    apply elem_dict_get; [by rewrite Hdom | by apply Hzr].
  - intros k r Hkr.
    apply (get_tracking_cache_elem ret summary p' k r Hg) in Hkr
      as (Hk & Hz & ->).
    destruct (record_of_fixed (tracking p) k) as (Hid & _).
    split; [done|]. split; [done|].
    split; [by rewrite record_of_is_zero|]. split.
    + by apply cpu_attached, zero_series_has_cpu, zero_found_series.
    + apply rss_attached.
Qed.

End LiveFacts.

(** ** The ranking key and the empty smoothed sequence *)

(** C9.  Both queries sort on the last element of the smoothed cpu
    sequence of each record.  When every cpu series of the store loads to
    a non-empty smoothed sequence, [get_tracking] returns and so does a
    following [get_zero_cpu_processes]; more generally the latter returns
    on every cache whose cpu details have non-empty smoothed sequences.
    On a store with a qualifying record whose smoothed cpu sequence is
    empty, and on a cache with such a record, the queries raise
    [IndexError] instead of returning. *)
Theorem sort_key_safety :
  (forall (Track : Type) (load : Track -> Series) (p : ProcessModel Track),
      smoothed_nonempty load p ->
      exists ret summary p' z,
        get_tracking load p = Ok ((ret, summary), p') /\
        get_zero_cpu_processes p' = Ok z) /\
  (forall (Track : Type) (q : ProcessModel Track),
      (forall k r d, (k, r) ∈ zero_cpu_processes q -> cpu r = Some d ->
                     smoothed d <> []) ->
      exists z, get_zero_cpu_processes q = Ok z) /\
  get_tracking Sample.load Sample.hollow = Raise IndexError /\
  get_zero_cpu_processes Sample.hollow_cache = Raise IndexError.
Proof.
  split; [|split; [|split]].
  - intros Track load p Hne.
    destruct (get_tracking_returns Track load p Hne) as (ret & summary & p' & Hg).
    destruct (get_zero_after_returns Track load p ret summary p' Hne Hg) as [z Hz].
    by exists ret, summary, p', z.
  - intros Track q. apply get_zero_total.
  - vm_compute. reflexivity.
  - vm_compute. reflexivity.
Qed.

(** ** The properties on the sample sessions *)

Ltac pick_item :=
  apply list_elem_of_In; simpl;
  repeat (first [left; reflexivity | right]).

Lemma session_runs :
  get_tracking Sample.load Sample.session
  = Ok ((Sample.session_ret, Sample.session_summary), Sample.session_after).
Proof. vm_compute. reflexivity. Defined.


Lemma session_zero_runs :
  get_zero_cpu_processes Sample.session_after = Ok Sample.session_zero.
Proof. vm_compute. reflexivity. Defined.

(** Process 2 is idle: it is not ranked, and the zero-cpu table lists it. *)
Lemma zero_cpu_partition_witness :
  (forall r, r ∈ Sample.session_ret -> process_id r <> "process.2") /\
  (exists r, r ∈ Sample.session_zero /\ process_id r = "process.2" /\
             cpu r <> None /\ rss r <> None).
Proof.
  destruct (zero_cpu_partition Series Sample.load Sample.session "process.2")
    as [H _].
  - intros (v & Hv & _). vm_compute in Hv. discriminate.
  - exists "process.2.cpu", (Sample.ser 0 [0; 0]%Q).
    split; [pick_item|]. repeat split; reflexivity.
  - destruct (H _ _ _ session_runs) as [H1 H2]. split; [exact H1|].
    apply H2; [|exact session_zero_runs].
    exists "process.2.rss", (Sample.ser 5 [5]%Q).
    split; [pick_item|]. split; reflexivity.
Defined.

(** Process 3 is dead: neither the ranked list nor the summary has it. *)
Lemma dead_excluded_witness :
  (forall r, r ∈ Sample.session_ret -> process_id r <> "process.3") /\
  Forall2 (fun r d => cpu r = Some d /\ process_id r <> "process.3")
          (take 5 Sample.session_ret) Sample.session_summary.
Proof.
  apply (dead_excluded Series Sample.load Sample.session "process.3"
           Sample.session_ret Sample.session_summary Sample.session_after).
  - exists (PNum 1). split; vm_compute; reflexivity.
  - exact session_runs.
Defined.


(** The rebuilt cache has each process once, and the stale entry of
    process 1 is in it only if process 1 is found idle in this pass. *)
Lemma cache_rebuilt_witness :
  NoDup (zero_cpu_processes Sample.session_after).*1 /\
  ("process.1" ∈ (zero_cpu_processes Sample.session_after).*1 <->
   ~ marked_dead Sample.session "process.1" /\
   zero_series Sample.load Sample.session "process.1").
Proof.
  destruct (cache_rebuilt Series Sample.load Sample.session
              Sample.session_ret Sample.session_summary Sample.session_after)
    as (_ & Hnd & H & _).
  - exact session_runs.
  - split; [exact Hnd | exact (H "process.1")].
Defined.

(** Process 6 has its rss series after its cpu series, and its cache
    entry has the rss detail all the same. *)
Lemma stashed_record_shared_witness :
  ("process.6", Sample.idle6) ∈ zero_cpu_processes Sample.session_after /\
  is_zero_cpu Sample.idle6 = true /\ cpu Sample.idle6 <> None /\
  (rss Sample.idle6 <> None <-> has_series Sample.session "process.6" "rss").
Proof.
  assert (Hin : ("process.6", Sample.idle6)
                ∈ zero_cpu_processes Sample.session_after).
  { apply list_elem_of_In. vm_compute.
    repeat (first [left; reflexivity | right]). }
  destruct (stashed_record_shared Series Sample.load Sample.session
              Sample.session_ret Sample.session_summary Sample.session_after)
    as [_ H].
  - exact session_runs.
  - destruct (H "process.6" Sample.idle6 Hin) as (_ & _ & H1 & H2 & H3). auto.
Defined.

(** A key of another analysis is skipped. *)
Lemma track_item_skips_malformed_witness :
  track_item Sample.PROCESS "cpu.1.name" (Sample.sample (PStr "x"))
    (defaults (Track := Series), [])
  = Ok (defaults, []).
Proof.
  apply (track_item_skips_malformed Sample.PROCESS Series).
  - right. vm_compute. discriminate.
  - vm_compute. discriminate.
Defined.

(** C7, as the specification states it, fails on the bare analysis-type
    name: the key has fewer than two segments, yet the iteration adds it
    to the batch forwarded to the series store. *)
Lemma track_item_bare_prefix_forwarded :
  malformed Sample.PROCESS "process" /\
  track_item Sample.PROCESS "process" (Sample.sample (PNum 1))
    (defaults (Track := Series), [])
  = Ok (defaults, [("process", Sample.sample (PNum 1))]) /\
  track_item Sample.PROCESS "process" (Sample.sample (PNum 1))
    (defaults (Track := Series), [])
  <> Ok (defaults, []).
Proof.
  split; [left; vm_compute; lia|]. split; [reflexivity|].
  vm_compute. discriminate.
Qed.

(** ** The testable properties of the specification, run *)

(** Two [name] samples for one process, in two batches: the first stays. *)
Example first_name_wins :
  let p1 := fst (track Sample.PROCESS Sample.series_track (defaults (Track := Series))
                   [("process.1.name", Sample.sample (PStr "first"))]) in
  let p2 := fst (track Sample.PROCESS Sample.series_track p1
                   [("process.1.name", Sample.sample (PStr "second"))]) in
  names p2 !! "process.1" = Some (PStr "first").
Proof. vm_compute. reflexivity. Qed.

(** The same holds for [dead]: a later observation does not change it. *)
Example first_dead_wins :
  let p1 := fst (track Sample.PROCESS Sample.series_track (defaults (Track := Series))
                   [("process.1.dead", Sample.sample (PNum 0))]) in
  let p2 := fst (track Sample.PROCESS Sample.series_track p1
                   [("process.1.dead", Sample.sample (PNum 1))]) in
  dead p2 !! "process.1" = Some (PNum 0).
Proof. vm_compute. reflexivity. Qed.

(** A GPU key is forwarded and registers its sub-process once. *)
Example gpu_registered_once :
  let batch := [("process.9.gpu.0.mem", Sample.sample (PNum 1))] in
  let p1 := fst (track Sample.PROCESS Sample.series_track (defaults (Track := Series)) batch) in
  let p2 := fst (track Sample.PROCESS Sample.series_track p1 batch) in
  elements <$> (gpu_processes p2 !! "process.9") = Some ["gpu.0"] /\
  (tracking p2).*1 = ["process.9.gpu.0.mem"].
Proof. vm_compute. split; reflexivity. Qed.

(** Ranking order and top-5 bound on the eight busy processes. *)
Example eight_ranked :
  process_id <$> Sample.eight_ret
  = ["process.8"; "process.7"; "process.6"; "process.5"; "process.4";
     "process.3"; "process.2"; "process.1"] /\
  smoothed <$> Sample.eight_summary = [[8]; [7]; [6]; [5]; [4]]%Q.
Proof. vm_compute. split; reflexivity. Qed.

(** The detail query without a recorded name. *)
Example detail_not_found :
  get_process Sample.load Sample.track_truthy Sample.session "process.4"
  = Raise (KeyError "process.4").
Proof. vm_compute. reflexivity. Qed.

(** ** Further properties of the sort *)

Section SortMore.
Context {A : Type}.

Lemma decorate_Raise_inv (key : A -> result Q) (l : list A) e :
  decorate key l = Raise e -> exists x, x ∈ l /\ key x = Raise e.
Proof.
  induction l as [|y l IH]; [discriminate|]. cbn [decorate].
  destruct (key y) as [q|e1] eqn:Ey; cbn [bind].
  - destruct (decorate key l) as [kl|e2]; cbn [bind]; [discriminate|].
    intros [= <-]. destruct (IH eq_refl) as (x & Hx & Hk).
    exists x. split; [by right | done].
  - intros [= <-]. exists y. split; [left | done].
Qed.

Lemma sort_by_key_desc_Raise_inv (key : A -> result Q) (l : list A) e :
  sort_by_key_desc key l = Raise e -> exists x, x ∈ l /\ key x = Raise e.
Proof.
  unfold sort_by_key_desc.
  destruct (decorate key l) as [kl|e1] eqn:Ed; cbn [bind]; [discriminate|].
  intros [= <-]. by apply decorate_Raise_inv.
Qed.


End SortMore.

(** ** Further properties of [track] *)

Section TrackMore.
Variable PROCESS : string.
Variable Track : Type.
Variable series_track :
  list (string * Track) -> list (string * Payload) -> list (string * Track).

Implicit Types (p : ProcessModel Track) (res : list (string * Payload))
  (m : gmap string pyval) (s : Payload).

Local Arguments String.eqb : simpl never.

Lemma static_map_Some suffix p :
  is_Some (static_map suffix p) <-> str_in suffix static_suffixes = true.
Proof.
  unfold static_map, str_in, static_suffixes. cbn [existsb].
  rewrite !(String.eqb_sym suffix).
  repeat (destruct (String.eqb _ suffix); [split; [done | eauto]|]).
  split; [intros [? ?]; discriminate | discriminate].
Qed.

Lemma static_map_None suffix p :
  static_map suffix p = None <-> str_in suffix static_suffixes = false.
Proof.
  pose proof (static_map_Some suffix p) as H.
  destruct (static_map suffix p) as [m|].
  - split; [discriminate|]. intros Hf.
    rewrite (proj1 H) in Hf; [discriminate | eauto].
  - split; [intros _ | done].
    destruct (str_in suffix static_suffixes); [|done].
    destruct (proj2 H eq_refl) as [? ?]. discriminate.
Qed.

(** *** The three kinds of key *)

(** A key of the analysis with a captured suffix: the sample goes through
    [first_write] into the map of the suffix and is not forwarded. *)
Lemma track_item_static ind s p res m :
  hd "" (split_dot ind) = PROCESS ->
  static_map (suffix_of ind) p = Some m ->
  track_item PROCESS ind s (p, res) =
  (m' <- first_write m (pid_of ind) s ;;;
   Ok (set_static_map (suffix_of ind) m' p, res)).
Proof.
  intros Hp Hm. unfold track_item.
  rewrite first_seg_split, last_seg_split. cbn [bind].
  rewrite Hp, String.eqb_refl. fold (suffix_of ind) (pid_of ind).
  unfold static_map in Hm. unfold set_static_map.
  repeat (destruct (String.eqb _ (suffix_of ind));
          [injection Hm as <-; reflexivity|]).
  discriminate.
Qed.

(** A key of the analysis with any other suffix: forwarded, after the
    GPU registration when the process identifier has the marker. *)
Lemma track_item_forwarded ind s p res :
  forwarded_key PROCESS ind = true ->
  track_item PROCESS ind s (p, res) = Ok (with_gpu ind p, dict_set ind s res).
Proof.
  unfold forwarded_key. intros H. apply andb_true_iff in H as [Hp Hs].
  apply negb_true_iff in Hs. fold (suffix_of ind) in Hs.
  unfold track_item. rewrite first_seg_split, last_seg_split. cbn [bind].
  rewrite Hp. fold (suffix_of ind) (pid_of ind).
  unfold str_in, static_suffixes in Hs. cbn [existsb] in Hs.
  rewrite !(String.eqb_sym (suffix_of ind)) in Hs.
  repeat (apply orb_false_iff in Hs as [E Hs]; rewrite E; clear E).
  reflexivity.
Qed.

Lemma key_kinds ind (p : ProcessModel Track) :
  hd "" (split_dot ind) <> PROCESS \/
  (hd "" (split_dot ind) = PROCESS /\ is_Some (static_map (suffix_of ind) p)) \/
  forwarded_key PROCESS ind = true.
Proof.
  unfold forwarded_key. fold (suffix_of ind).
  destruct (String.eqb (hd "" (split_dot ind)) PROCESS) eqn:Ep.
  - apply String.eqb_eq in Ep. right.
    destruct (str_in (suffix_of ind) static_suffixes) eqn:Es.
    + left. split; [done|]. by apply static_map_Some.
    + by right.
  - apply String.eqb_neq in Ep. by left.
Qed.

Lemma static_map_set suffix m p :
  str_in suffix static_suffixes = true ->
  static_map suffix (set_static_map suffix m p) = Some m.
Proof.
  unfold static_map, set_static_map, str_in, static_suffixes. cbn [existsb].
  rewrite !(String.eqb_sym suffix).
  repeat (destruct (String.eqb _ suffix); [reflexivity|]).
  discriminate.
Qed.

Lemma set_static_map_rest suffix m p :
  gpu_processes (set_static_map suffix m p) = gpu_processes p /\
  zero_cpu_processes (set_static_map suffix m p) = zero_cpu_processes p /\
  tracking (set_static_map suffix m p) = tracking p.
Proof.
  unfold set_static_map.
  repeat (destruct (String.eqb _ suffix); [done|]). done.
Qed.

Lemma with_gpu_rest ind p :
  static_maps (with_gpu ind p) = static_maps p /\
  zero_cpu_processes (with_gpu ind p) = zero_cpu_processes p /\
  tracking (with_gpu ind p) = tracking p.
Proof. unfold with_gpu. by destruct (contains _ _). Qed.

(** No iteration touches the series store or the zero-cpu cache. *)
Lemma track_item_rest ind s p res p' res' :
  track_item PROCESS ind s (p, res) = Ok (p', res') ->
  zero_cpu_processes p' = zero_cpu_processes p /\ tracking p' = tracking p.
Proof.
  destruct (key_kinds ind p) as [Hf|[[Hp [m Hm]]|Hfw]].
  - rewrite (track_item_foreign PROCESS Track ind s (p, res) Hf). by intros [= <- <-].
  - rewrite (track_item_static ind s p res m Hp Hm).
    destruct (first_write m (pid_of ind) s) as [m'|e]; cbn [bind]; [|discriminate].
    intros [= <- <-].
    by destruct (set_static_map_rest (suffix_of ind) m' p) as (_ & -> & ->).
  - rewrite (track_item_forwarded ind s p res Hfw). intros [= <- <-].
    by destruct (with_gpu_rest ind p) as (_ & -> & ->).
Qed.

Lemma track_loop_rest data p res :
  zero_cpu_processes (fst (fst (track_loop PROCESS data (p, res))))
  = zero_cpu_processes p /\
  tracking (fst (fst (track_loop PROCESS data (p, res)))) = tracking p.
Proof.
  revert p res. induction data as [|[ind s] data IH]; intros p res;
    cbn [track_loop]; [done|].
  destruct (track_item PROCESS ind s (p, res)) as [[p' res']|e] eqn:E; [|done].
  destruct (track_item_rest ind s p res p' res' E) as [<- <-]. apply IH.
Qed.

(** *** Captured samples *)

(** X1.  A sample of a captured suffix with a value: the iteration
    returns, forwards nothing, and afterwards the map of the suffix holds
    for the process the value it already had or, failing that, the first
    value of the sample; no other entry of the map changes. *)
Theorem static_sample_captured ind s p res m v vs :
  hd "" (split_dot ind) = PROCESS ->
  static_map (suffix_of ind) p = Some m ->
  p_value s = v :: vs ->
  exists p' m',
    track_item PROCESS ind s (p, res) = Ok (p', res) /\
    static_map (suffix_of ind) p' = Some m' /\
    m' !! pid_of ind = Some (default v (m !! pid_of ind)) /\
    (forall k, k <> pid_of ind -> m' !! k = m !! k).
Proof.
  intros Hp Hm Hv. rewrite (track_item_static ind s p res m Hp Hm).
  assert (Hs : str_in (suffix_of ind) static_suffixes = true).
  { apply (static_map_Some _ p). eauto. }
  unfold first_write, attr_mem, value0. rewrite Hv.
  destruct (m !! pid_of ind) as [v0|] eqn:E; cbn [bind].
  - exists (set_static_map (suffix_of ind) m p), m.
    split; [done|]. split; [by apply static_map_set|]. by split.
  - exists (set_static_map (suffix_of ind) (<[pid_of ind := v]> m) p),
           (<[pid_of ind := v]> m).
    split; [done|]. split; [by apply static_map_set|].
    split; [by rewrite lookup_insert_eq|].
    intros k Hk. by rewrite lookup_insert_ne.
Qed.

(** X2.  An iteration of [track] raises in one case only: the key is of
    the analysis, its suffix is captured, the process has no entry in the
    map of the suffix, and the value list of the sample is empty; the
    exception is then [IndexError]. *)
Theorem track_item_raises ind s p res e :
  track_item PROCESS ind s (p, res) = Raise e <->
  e = IndexError /\
  hd "" (split_dot ind) = PROCESS /\
  (exists m, static_map (suffix_of ind) p = Some m /\ m !! pid_of ind = None) /\
  p_value s = [].
Proof.
  split.
  - destruct (key_kinds ind p) as [Hf|[[Hp [m Hm]]|Hfw]].
    + by rewrite (track_item_foreign PROCESS Track ind s (p, res) Hf).
    + rewrite (track_item_static ind s p res m Hp Hm).
      unfold first_write, attr_mem, value0.
      destruct (m !! pid_of ind) eqn:E; cbn [bind]; [discriminate|].
      destruct (p_value s); cbn [bind]; [|discriminate].
      intros [= <-]. split; [done|]. split; [done|]. split; [eauto | done].
    + by rewrite (track_item_forwarded ind s p res Hfw).
  - intros (-> & Hp & (m & Hm & Hk) & Hv).
    rewrite (track_item_static ind s p res m Hp Hm).
    unfold first_write, attr_mem, value0. by rewrite Hk, Hv.
Qed.




(** *** The batch handed to the series store *)

Lemma forwarded_key_foreign ind :
  hd "" (split_dot ind) <> PROCESS -> forwarded_key PROCESS ind = false.
Proof.
  intros H. unfold forwarded_key. apply String.eqb_neq in H. by rewrite H.
Qed.

Lemma forwarded_key_static ind (p : ProcessModel Track) :
  is_Some (static_map (suffix_of ind) p) -> forwarded_key PROCESS ind = false.
Proof.
  intros H. apply static_map_Some in H. unfold forwarded_key.
  fold (suffix_of ind). rewrite H. apply andb_false_r.
Qed.

Lemma track_loop_forwards data p res p' res' :
  NoDup (res.*1 ++ data.*1) ->
  track_loop PROCESS data (p, res) = ((p', res'), None) ->
  res' = res ++ List.filter (fun kv => forwarded_key PROCESS (fst kv)) data.
Proof.
  revert p res. induction data as [|[ind s] data IH]; intros p res Hnd;
    cbn [track_loop].
  - intros [= <- <-]. simpl. by rewrite app_nil_r.
  - rewrite fmap_cons in Hnd. cbn [fst] in Hnd.
    assert (Hnd' : NoDup (res.*1 ++ data.*1)).
    { apply NoDup_app in Hnd as (H1 & H2 & H3). apply NoDup_cons in H3 as [_ H3].
      apply NoDup_app. split; [done|]. split; [|done].
      intros x Hx Hx'. apply (H2 x Hx). by right. }
    cbn [List.filter fst].
    destruct (key_kinds ind p) as [Hf|[[Hp [m Hm]]|Hfw]].
    + rewrite (track_item_foreign PROCESS Track ind s (p, res) Hf).
      rewrite (forwarded_key_foreign ind Hf). by apply IH.
    + rewrite (track_item_static ind s p res m Hp Hm).
      rewrite (forwarded_key_static ind p) by eauto.
      destruct (first_write m (pid_of ind) s) as [m'|e]; cbn [bind]; [|discriminate].
      by apply IH.
    + rewrite (track_item_forwarded ind s p res Hfw), Hfw.
      assert (Hfresh : ind ∉ res.*1).
      { apply NoDup_app in Hnd as (_ & H2 & _). intros Hin.
        apply (H2 ind Hin). left. }
      rewrite (dict_set_fresh res ind s Hfresh). intros Hrun.
      apply IH in Hrun.
      * rewrite Hrun. by rewrite <- app_assoc.
      * rewrite fmap_app, <- app_assoc. exact Hnd.
Qed.

(** X4.  When [track] returns on a batch (a dict: its keys are distinct),
    the series store receives exactly the samples of the batch whose key
    is of the analysis and whose suffix is not captured, in the order of
    the batch; captured samples and keys of other analyses never reach
    it. *)
Theorem track_forwards_exactly p data :
  NoDup data.*1 ->
  snd (track PROCESS series_track p data) = Ok tt ->
  tracking (fst (track PROCESS series_track p data)) =
  series_track (tracking p)
    (List.filter (fun kv => forwarded_key PROCESS (fst kv)) data).
Proof.
  intros Hnd. unfold track.
  pose proof (track_loop_rest data p []) as [_ Ht].
  pose proof (track_loop_forwards data p []) as Hf.
  destruct (track_loop PROCESS data (p, [])) as [[p' res'] [e|]];
    cbn [fst snd] in *; [discriminate|].
  intros _. rewrite Ht. cbn [tracking set_tracking].
  by rewrite (Hf p' res' Hnd eq_refl).
Qed.

(** X5.  A sample under the suffix [ppid] is not captured: only [ppids]
    is.  The iteration forwards it to the series store and leaves every
    attribute map, [ppids] included, as it was. *)
Theorem ppid_sample_forwarded ind s p res :
  hd "" (split_dot ind) = PROCESS ->
  suffix_of ind = "ppid" ->
  exists p',
    track_item PROCESS ind s (p, res) = Ok (p', dict_set ind s res) /\
    static_maps p' = static_maps p.
Proof.
  intros Hp Hs.
  assert (Hfw : forwarded_key PROCESS ind = true).
  { unfold forwarded_key. fold (suffix_of ind). rewrite Hp, Hs.
    by rewrite String.eqb_refl. }
  exists (with_gpu ind p). split; [by apply track_item_forwarded|].
  by destruct (with_gpu_rest ind p) as (-> & _).
Qed.

(** *** GPU sub-processes *)

Lemma register_gpu_lookup (l : list string) (g : gmap string (gset string)) :
  register_gpu l g !! join_dot (slice 0 2 l)
  = Some (default ∅ (g !! join_dot (slice 0 2 l)) ∪ {[join_dot (slice 2 4 l)]}).
Proof.
  unfold register_gpu. destruct (g !! join_dot (slice 0 2 l)) as [set|] eqn:E.
  - by rewrite lookup_insert_eq.
  - rewrite lookup_insert_eq. simpl. f_equal. symmetry. apply (left_id_L ∅ (∪)).
Qed.

Lemma register_gpu_other (l : list string) (g : gmap string (gset string)) k :
  k <> join_dot (slice 0 2 l) -> register_gpu l g !! k = g !! k.
Proof.
  intros Hk. unfold register_gpu.
  destruct (g !! join_dot (slice 0 2 l)); by rewrite lookup_insert_ne.
Qed.

Lemma register_gpu_grows (l : list string) (g : gmap string (gset string)) k set :
  g !! k = Some set ->
  exists set', register_gpu l g !! k = Some set' /\ set ⊆ set'.
Proof.
  intros Hk. destruct (decide (k = join_dot (slice 0 2 l))) as [->|Hne].
  - rewrite register_gpu_lookup, Hk. simpl. eexists. split; [done|].
    apply union_subseteq_l.
  - rewrite (register_gpu_other l g k Hne), Hk. eauto.
Qed.

Lemma register_gpu_twice (l : list string) (g : gmap string (gset string)) :
  register_gpu l (register_gpu l g) = register_gpu l g.
Proof.
  apply map_eq. intros k.
  destruct (decide (k = join_dot (slice 0 2 l))) as [->|Hne].
  - rewrite !register_gpu_lookup. simpl. f_equal.
    by rewrite <- (assoc_L (∪)), (idemp_L (∪)).
  - by rewrite !register_gpu_other.
Qed.

(** X6.  A forwarded key whose process identifier contains the marker
    [gpu]: the iteration registers segments three and four, joined, in the
    GPU set of the process named by the first two segments, keeping what
    the set had; ingesting the same key again changes no GPU set. *)
Theorem gpu_sample_registered ind s p res :
  forwarded_key PROCESS ind = true ->
  contains "gpu" (pid_of ind) = true ->
  exists p',
    track_item PROCESS ind s (p, res) = Ok (p', dict_set ind s res) /\
    gpu_processes p' !! join_dot (slice 0 2 (split_dot ind))
    = Some (default ∅ (gpu_processes p !! join_dot (slice 0 2 (split_dot ind)))
            ∪ {[join_dot (slice 2 4 (split_dot ind))]}) /\
    (forall s2 res2, exists p'',
        track_item PROCESS ind s2 (p', res2) = Ok (p'', dict_set ind s2 res2) /\
        gpu_processes p'' = gpu_processes p').
Proof.
  intros Hfw Hg. exists (with_gpu ind p).
  split; [by apply track_item_forwarded|].
  unfold with_gpu. rewrite Hg. cbn [gpu_processes set_gpu_processes]. split.
  - apply register_gpu_lookup.
  - intros s2 res2. eexists. split; [by apply track_item_forwarded|].
    unfold with_gpu. rewrite Hg. cbn [gpu_processes set_gpu_processes].
    apply register_gpu_twice.
Qed.

Lemma track_item_gpu_grows ind s p res p' res' k set :
  track_item PROCESS ind s (p, res) = Ok (p', res') ->
  gpu_processes p !! k = Some set ->
  exists set', gpu_processes p' !! k = Some set' /\ set ⊆ set'.
Proof.
  intros Hrun Hk. destruct (key_kinds ind p) as [Hf|[[Hp [m Hm]]|Hfw]].
  - rewrite (track_item_foreign PROCESS Track ind s (p, res) Hf) in Hrun.
    injection Hrun as <- <-. eauto.
  - rewrite (track_item_static ind s p res m Hp Hm) in Hrun.
    destruct (first_write m (pid_of ind) s) as [m'|e]; cbn [bind] in Hrun;
      [|discriminate].
    injection Hrun as <- <-.
    destruct (set_static_map_rest (suffix_of ind) m' p) as (-> & _). eauto.
  - rewrite (track_item_forwarded ind s p res Hfw) in Hrun.
    injection Hrun as <- <-. unfold with_gpu.
    destruct (contains "gpu" (pid_of ind)); [|eauto].
    cbn [gpu_processes set_gpu_processes]. by apply register_gpu_grows.
Qed.

Lemma track_loop_gpu_grows data p res k set :
  gpu_processes p !! k = Some set ->
  exists set',
    gpu_processes (fst (fst (track_loop PROCESS data (p, res)))) !! k = Some set' /\
    set ⊆ set'.
Proof.
  revert p res set. induction data as [|[ind s] data IH]; intros p res set Hk;
    cbn [track_loop]; [eauto|].
  destruct (track_item PROCESS ind s (p, res)) as [[p' res']|e] eqn:E; [|eauto].
  destruct (track_item_gpu_grows ind s p res p' res' k set E Hk) as (set1 & H1 & Hs1).
  destruct (IH p' res' set1 H1) as (set2 & H2 & Hs2).
  exists set2. split; [done|]. by transitivity set1.
Qed.

(** X7.  The GPU sets only grow: whatever the batch, and whether [track]
    returns or raises, every process that had a GPU set still has one
    afterwards, with at least the same members. *)
Theorem gpu_sets_grow p data k set :
  gpu_processes p !! k = Some set ->
  exists set',
    gpu_processes (fst (track PROCESS series_track p data)) !! k = Some set' /\
    set ⊆ set'.
Proof.
  intros Hk. unfold track.
  pose proof (track_loop_gpu_grows data p [] k set Hk) as H.
  destruct (track_loop PROCESS data (p, [])) as [[p' res'] [e|]]; exact H.
Qed.

(** *** The liveness flag *)

(** X25.  The liveness flag is frozen by its first sample.  Once the
    [dead] map has an entry for a process, whatever is ingested afterwards
    leaves that entry alone: the process is marked dead after the batch
    exactly when its first recorded value was truthy.  So a process first
    recorded alive is never marked dead, and one first recorded dead is
    never revived. *)
Theorem liveness_frozen p data k v :
  dead p !! k = Some v ->
  dead (fst (track PROCESS series_track p data)) !! k = Some v /\
  (marked_dead (fst (track PROCESS series_track p data)) k <-> truthy v = true).
Proof.
  intros Hv.
  assert (Hkept : dead (fst (track PROCESS series_track p data)) !! k = Some v).
  { unfold track. pose proof (track_loop_kept PROCESS Track data p []) as H.
    destruct (track_loop PROCESS data (p, [])) as [[p1 res1] [e|]];
      cbn [fst snd] in *; unfold static_maps in H;
      repeat (apply Forall2_cons in H as [? H]); auto. }
  split; [done|]. unfold marked_dead. rewrite Hkept. split.
  - by intros (v' & [= <-] & Ht).
  - intros Ht. by exists v.
Qed.
End TrackMore.

(** ** Series keys *)

Lemma str_app_assoc (a b c : string) : (a +:+ b) +:+ c = a +:+ (b +:+ c).
Proof.
  induction a as [|x a IH]; [done|].
  change (String x ((a +:+ b) +:+ c) = String x (a +:+ (b +:+ c))).
  by f_equal.
Qed.

Lemma join_dot_snoc (l : list string) (s : string) :
  l <> [] -> join_dot (l ++ [s]) = join_dot l +:+ String dot s.
Proof.
  induction l as [|x l IH]; [done|]. intros _.
  destruct l as [|y l]; [reflexivity|].
  change (join_dot ((x :: y :: l) ++ [s]))
    with (x +:+ String dot (join_dot ((y :: l) ++ [s]))).
  rewrite IH by done.
  change (join_dot (x :: y :: l)) with (x +:+ String dot (join_dot (y :: l))).
  by rewrite str_app_assoc.
Qed.

(** X8.  Encoding then decoding a series key: for a suffix without a dot,
    the key built as the detail query builds it, process identifier, dot,
    suffix, is split by the table queries into that process identifier and
    that suffix. *)
Theorem key_decodes (k suffix : string) :
  split_dot suffix = [suffix] ->
  pid_of (k +:+ String dot suffix) = k /\
  suffix_of (k +:+ String dot suffix) = suffix.
Proof. intros H. unfold pid_of, suffix_of. by apply key_segments. Qed.

Lemma key_of_parts (ind : string) :
  pid_of ind <> "" -> ind = pid_of ind +:+ String dot (suffix_of ind).
Proof.
  intros Hk. unfold pid_of, suffix_of, but_last in *.
  pose proof (split_dot_nonnil ind) as Hne.
  rewrite <- (join_split_dot ind) at 1.
  rewrite (app_removelast_last "" Hne) at 1.
  apply join_dot_snoc. intros Hnil. by rewrite Hnil in Hk.
Qed.

(** X9.  Decoding then encoding: a key whose process identifier is not
    empty is that process identifier, a dot, and its suffix; so two keys
    with the same non-empty process identifier and the same suffix are the
    same key. *)
Theorem key_encodes (ind : string) :
  pid_of ind <> "" ->
  ind = pid_of ind +:+ String dot (suffix_of ind) /\
  (forall ind', pid_of ind' = pid_of ind -> suffix_of ind' = suffix_of ind ->
                ind' = ind).
Proof.
  intros Hk. split; [by apply key_of_parts|].
  intros ind' Hp Hs.
  rewrite (key_of_parts ind Hk), (key_of_parts ind') by congruence.
  by rewrite Hp, Hs.
Qed.

(** ** Further properties of [get_process] *)

Section DetailMore.
Variable Track : Type.
Variable load : Track -> Series.
Variable track_truthy : Track -> bool.

Implicit Types (p : ProcessModel Track) (k : string).

Lemma elem_of_series_of p ind n x :
  x ∈ series_of load track_truthy p ind n <->
  exists t, dict_get ind (tracking p) = Some t /\ track_truthy t = true /\
            x = set_d_name (PStr n) (detail (load t)).
Proof.
  unfold series_of. destruct (dict_get ind (tracking p)) as [t|].
  - destruct (track_truthy t) eqn:E.
    + rewrite list_elem_of_singleton. split; [eauto|].
      by intros (t' & [= <-] & _ & ->).
    + split; [intros H; inversion H|]. intros (t' & [= <-] & ? & _). congruence.
  - split; [intros H; inversion H|]. intros (t' & ? & _). discriminate.
Qed.

Lemma series_of_length p ind n :
  length (series_of load track_truthy p ind n) <= 1.
Proof.
  unfold series_of. destruct (dict_get ind (tracking p)) as [t|]; [|simpl; lia].
  destruct (track_truthy t); simpl; lia.
Qed.

Lemma flat_map_length_le {A B} (f : A -> list B) (l : list A) :
  (forall x, length (f x) <= 1) -> length (flat_map f l) <= length l.
Proof.
  intros Hf. induction l as [|x l IH]; simpl; [lia|].
  rewrite length_app. specialize (Hf x). lia.
Qed.

Lemma elem_of_flat_map_iff {A B} (f : A -> list B) (l : list A) (y : B) :
  y ∈ flat_map f l <-> exists x, x ∈ l /\ y ∈ f x.
Proof.
  rewrite list_elem_of_In, in_flat_map. split.
  - intros (x & H1 & H2). exists x. by rewrite !list_elem_of_In.
  - intros (x & H1 & H2). exists x. by rewrite <- !list_elem_of_In.
Qed.

Lemma get_process_series p k d :
  get_process load track_truthy p k = Ok d ->
  pd_series d =
  flat_map (fun s_name =>
              series_of load track_truthy p (k +:+ String dot s_name) s_name)
           SERIES_NAMES
  ++ flat_map (fun g : string =>
                 series_of load track_truthy p
                   (k +:+ String dot (g +:+ ".mem")) (g +:+ ".mem"))
              (elements (default ∅ (gpu_processes p !! k))).
Proof.
  unfold get_process. destruct (names p !! k); [|discriminate].
  by intros [= <-].
Qed.

(** X10.  What the detail query lists.  For each canonical metric, in the
    order rss, vms, cpu, threads, user, system, and then for each
    registered GPU sub-process, the store is looked up under the process
    identifier, a dot and the metric name; a series that is there and
    truthy is listed as its loaded detail with that metric name, and
    nothing else is listed.  The list has at most six entries plus one
    per registered GPU sub-process. *)
Theorem detail_lists_series p k d :
  get_process load track_truthy p k = Ok d ->
  (forall n t,
      n ∈ SERIES_NAMES ->
      dict_get (k +:+ String dot n) (tracking p) = Some t ->
      track_truthy t = true ->
      set_d_name (PStr n) (detail (load t)) ∈ pd_series d) /\
  (forall x, x ∈ pd_series d ->
      exists n t,
        (n ∈ SERIES_NAMES \/
         exists g, g ∈ default ∅ (gpu_processes p !! k) /\ n = g +:+ ".mem") /\
        dict_get (k +:+ String dot n) (tracking p) = Some t /\
        track_truthy t = true /\
        x = set_d_name (PStr n) (detail (load t))) /\
  length (pd_series d) <= 6 + size (default ∅ (gpu_processes p !! k)).
Proof.
  intros Hg.
  set (canonical := fun s_name =>
         series_of load track_truthy p (k +:+ String dot s_name) s_name).
  set (gpu := fun g : string =>
         series_of load track_truthy p (k +:+ String dot (g +:+ ".mem"))
           (g +:+ ".mem")).
  assert (Hser : pd_series d =
            flat_map canonical SERIES_NAMES
            ++ flat_map gpu (elements (default ∅ (gpu_processes p !! k)))).
  { by apply get_process_series. }
  rewrite Hser. clear Hser Hg. split; [|split].
  - intros n t Hn Hd Ht. rewrite elem_of_app, !elem_of_flat_map_iff. left.
    exists n. split; [done|]. apply elem_of_series_of. eauto.
  - intros x. rewrite elem_of_app, !elem_of_flat_map_iff.
    intros [(n & Hn & Hx)|(n & Hn & Hx)];
      apply elem_of_series_of in Hx as (t & Hd & Ht & ->).
    + exists n, t. split; [by left | done].
    + exists (n +:+ ".mem"), t. split; [|done]. right. exists n.
      split; [by apply elem_of_elements | done].
  - rewrite length_app.
    pose proof (flat_map_length_le canonical SERIES_NAMES
                  (fun n => series_of_length p _ n)) as H1.
    pose proof (flat_map_length_le gpu
                  (elements (default ∅ (gpu_processes p !! k)))
                  (fun g => series_of_length p _ _)) as H2.
    change (length SERIES_NAMES) with 6 in H1.
    change (size (default ∅ (gpu_processes p !! k)))
      with (length (elements (default ∅ (gpu_processes p !! k)))).
    lia.
Qed.

(** X20.  The live table and the detail query agree on the cpu series.  On
    a store with distinct keys whose series are all truthy: for a ranked
    record of a process with a non-empty identifier and a recorded name,
    the detail query of that process returns, and lists under the name
    [cpu] a detail with the same smoothed sequence as the cpu detail of
    the record. *)
Theorem live_detail_agree p ret summary p' r name :
  NoDup (tracking p).*1 ->
  (forall ind t, (ind, t) ∈ tracking p -> track_truthy t = true) ->
  get_tracking load p = Ok ((ret, summary), p') ->
  r ∈ ret ->
  process_id r <> "" ->
  names p !! process_id r = Some name ->
  exists d c x,
    get_process load track_truthy p (process_id r) = Ok d /\
    cpu r = Some c /\
    x ∈ pd_series d /\
    d_name x = Some (PStr "cpu") /\
    smoothed x = smoothed c.
Proof.
  intros Hnd Htruthy Hg Hr Hk Hname.
  destruct (get_tracking_ret_elem Track load p ret summary p' r Hg Hr)
    as (k & _ & Hrk & Hcase).
  apply ranked_complete in Hrk as (_ & Hc & _).
  destruct (record_of_fixed Track load p (tracking p) k) as (Hid & _).
  assert (process_id r = k) as Hrid.
  { destruct Hcase as [->| ->]; [done|].
    by destruct (named_fixed (record_of load p (tracking p) k)) as (-> & _). }
  rewrite Hrid in *.
  pose proof (record_of_cpu Track load p (tracking p) k) as Hcpu.
  destruct (cpu (record_of load p (tracking p) k)) as [c0|] eqn:Ec; [|done].
  destruct Hcpu as ([ind t] & Hin & Hpid & Hsuf & ->). cbn [fst snd] in *.
  assert (ind = k +:+ String dot "cpu") as ->.
  { rewrite (key_of_parts ind) by congruence. by rewrite Hpid, Hsuf. }
  destruct (get_process_named Track load track_truthy p k name Hname)
    as (d & Hd & _).
  assert (Hlisted : set_d_name (PStr "cpu") (detail (load t)) ∈ pd_series d).
  { rewrite (get_process_series p k d Hd). apply elem_of_app. left.
    apply elem_of_flat_map_iff. exists "cpu".
    split; [unfold SERIES_NAMES; rewrite !elem_of_cons; auto|].
    apply elem_of_series_of. exists t.
    split; [by apply elem_dict_get|].
    split; [by apply (Htruthy (k +:+ String dot "cpu") t) | done]. }
  destruct Hcase as [->| ->].
  - exists d, (detail (load t)), (set_d_name (PStr "cpu") (detail (load t))).
    done.
  - exists d, (set_d_name (r_name (record_of load p (tracking p) k))
                 (detail (load t))),
           (set_d_name (PStr "cpu") (detail (load t))).
    split; [done|]. split; [|done]. unfold named. by rewrite Ec.
Qed.

(** X21.  A recorded name stays.  Once [names] has an entry for a process,
    the detail query of that process returns with that name after any
    further batch is ingested, whether [track] returned or raised. *)
Theorem name_persists (PROCESS : string)
    (series_track :
       list (string * Track) -> list (string * Payload) -> list (string * Track))
    p data k name :
  names p !! k = Some name ->
  exists d,
    get_process load track_truthy (fst (track PROCESS series_track p data)) k
    = Ok d /\
    pd_name d = name.
Proof.
  intros Hname.
  assert (Hkept : names (fst (track PROCESS series_track p data)) !! k
                  = Some name).
  { unfold track. pose proof (track_loop_kept PROCESS Track data p []) as H.
    destruct (track_loop PROCESS data (p, [])) as [[p1 res1] [e|]];
      cbn [fst snd] in *; unfold static_maps in H;
      apply Forall2_cons in H as [H _]; by apply H. }
  destruct (get_process_named Track load track_truthy _ k name Hkept)
    as (d & Hd & _ & Hn & _).
  by exists d.
Qed.

(** X22.  A GPU memory series is found again.  For a key of five segments
    ending in [mem]: when the GPU set of the process named by the first
    two segments has the sub-process named by segments three and four (as
    [track] registers it), that process has a name, and the store has a
    truthy series under the key, the detail query of the process lists the
    detail of that series, named by the sub-process and [mem]. *)
Theorem gpu_series_listed p ind t name :
  length (split_dot ind) = 5 ->
  suffix_of ind = "mem" ->
  join_dot (slice 2 4 (split_dot ind))
    ∈ default ∅ (gpu_processes p !! join_dot (slice 0 2 (split_dot ind))) ->
  names p !! join_dot (slice 0 2 (split_dot ind)) = Some name ->
  dict_get ind (tracking p) = Some t ->
  track_truthy t = true ->
  exists d,
    get_process load track_truthy p (join_dot (slice 0 2 (split_dot ind))) = Ok d /\
    set_d_name (PStr (join_dot (slice 2 4 (split_dot ind)) +:+ ".mem"))
      (detail (load t)) ∈ pd_series d.
Proof.
  intros Hlen Hsuf Hg Hname Hd Ht.
  destruct (get_process_named Track load track_truthy p _ name Hname)
    as (d & Hgp & _).
  exists d. split; [done|].
  rewrite (get_process_series p _ d Hgp). apply elem_of_app. right.
  apply elem_of_flat_map_iff. exists (join_dot (slice 2 4 (split_dot ind))).
  split; [by apply elem_of_elements|].
  apply elem_of_series_of. exists t. split; [|done].
  rewrite <- Hd. f_equal.
  unfold suffix_of in Hsuf. rewrite <- (join_split_dot ind) at 3.
  destruct (split_dot ind) as [|a [|b [|c [|d0 [|e [|]]]]]]; try discriminate.
  cbn in Hsuf. subst e. cbn [slice take drop join_dot Nat.sub].
  rewrite !str_app_assoc. reflexivity.
Qed.
End DetailMore.

(** ** Further properties of the live table *)

Section LiveMore.
Variable Track : Type.
Variable load : Track -> Series.
Variable p : ProcessModel Track.

Implicit Types (k ind : string) (t : Track) (r : ProcRec).

(** A process qualifies for the ranked list. *)
Lemma qualifies_iff k :
  k ∈ live_pids p (tracking p) /\
  ranked (record_of load p (tracking p) k) = true <->
  ~ marked_dead p k /\ has_series p k "cpu" /\ has_series p k "rss" /\
  ~ zero_series load p k.
Proof.
  rewrite (elem_of_live_pids Track load), (alive_not_dead Track),
    ranked_complete, record_of_is_zero,
    (cpu_attached Track load), (rss_attached Track load),
    <- (zero_found_series Track load), not_true_iff_false.
  split; [tauto|]. intros (Hd & Hc & Hr & Hz).
  split; [|done]. split; [done|].
  destruct Hc as (ind & t & Hin & Hk & _). by exists (ind, t).
Qed.

Lemma ret_of_records ret summary p' r0 :
  get_tracking load p = Ok ((ret, summary), p') ->
  r0 ∈ ranked_records load p ->
  exists r, r ∈ ret /\ (r = r0 \/ r = named r0).
Proof.
  intros Hg H0.
  destruct (get_tracking_spec Track load p ret summary p' Hg)
    as (recs & zs & Hperm & _ & -> & _).
  rewrite <- Hperm, <- (take_drop 5 recs) in H0.
  apply elem_of_app in H0 as [H0|H0].
  - exists (named r0). split; [|by right].
    apply elem_of_app. left. apply list_elem_of_fmap. by exists r0.
  - exists r0. split; [|by left]. apply elem_of_app. by right.
Qed.

(** X11.  Who is in the ranked list.  When [get_tracking] returns, a
    process has a record in the ranked list exactly when it is not marked
    dead, the store has a cpu series and an rss series of it, and none of
    its cpu series has a mean below [ALMOST_ZERO]. *)
Theorem ranked_membership ret summary p' k :
  get_tracking load p = Ok ((ret, summary), p') ->
  (exists r, r ∈ ret /\ process_id r = k) <->
  ~ marked_dead p k /\ has_series p k "cpu" /\ has_series p k "rss" /\
  ~ zero_series load p k.
Proof.
  intros Hg. rewrite <- qualifies_iff. split.
  - intros (r & Hr & Hk).
    destruct (get_tracking_ret_elem Track load p ret summary p' r Hg Hr)
      as (k' & Hk' & Hrk & Hcase).
    destruct (record_of_fixed Track load p (tracking p) k') as (Hid & _).
    destruct (named_fixed (record_of load p (tracking p) k')) as (Hn & _).
    assert (k' = k) as -> by (destruct Hcase as [->| ->]; congruence).
    done.
  - intros [Hk Hr].
    destruct (ret_of_records ret summary p' (record_of load p (tracking p) k) Hg)
      as (r & Hin & Hcase).
    { apply elem_of_ranked_records. by exists k. }
    exists r. split; [done|].
    destruct (record_of_fixed Track load p (tracking p) k) as (Hid & _).
    destruct (named_fixed (record_of load p (tracking p) k)) as (Hn & _).
    destruct Hcase as [->| ->]; congruence.
Qed.

Lemma ranked_records_pids :
  process_id <$> ranked_records load p
  = List.filter (fun k => ranked (record_of load p (tracking p) k))
                (live_pids p (tracking p)).
Proof.
  unfold ranked_records.
  induction (live_pids p (tracking p)) as [|k ks IH]; [done|].
  rewrite fmap_cons. cbn [List.filter].
  destruct (ranked (record_of load p (tracking p) k)).
  - rewrite fmap_cons, IH.
    by destruct (record_of_fixed Track load p (tracking p) k) as (-> & _).
  - exact IH.
Qed.

Lemma ret_pids ret summary p' :
  get_tracking load p = Ok ((ret, summary), p') ->
  process_id <$> ret ≡ₚ process_id <$> ranked_records load p.
Proof.
  intros Hg.
  destruct (get_tracking_spec Track load p ret summary p' Hg)
    as (recs & zs & Hperm & _ & -> & _).
  assert (Heq : process_id <$> (named <$> take 5 recs) ++ drop 5 recs
                = process_id <$> recs).
  { rewrite fmap_app, <- list_fmap_compose.
    rewrite <- (take_drop 5 recs) at 3. rewrite fmap_app. f_equal.
    apply list_fmap_ext. intros i r _. simpl.
    by destruct (named_fixed r) as (-> & _). }
  by rewrite Heq, Hperm.
Qed.

(** X12.  The ranked list has at most one record per process. *)
Theorem ranked_once ret summary p' :
  get_tracking load p = Ok ((ret, summary), p') ->
  NoDup (process_id <$> ret).
Proof.
  intros Hg. rewrite (ret_pids ret summary p' Hg), ranked_records_pids.
  apply NoDup_ListNoDup, List.NoDup_filter, NoDup_ListNoDup, live_pids_NoDup.
Qed.

(** *** The zero-cpu table after a call *)

(** X13.  Who is in the zero-cpu table.  When [get_tracking] returns and
    the following [get_zero_cpu_processes] returns, a process has a record
    in the zero-cpu table exactly when it is not marked dead, some cpu
    series of it has a mean below [ALMOST_ZERO], and the store has an rss
    series of it; every record of the table has its [is_zero_cpu] flag
    set, and no process has two. *)
Theorem zero_table_membership ret summary p' z :
  get_tracking load p = Ok ((ret, summary), p') ->
  get_zero_cpu_processes p' = Ok z ->
  (forall k, (exists r, r ∈ z /\ process_id r = k) <->
             ~ marked_dead p k /\ zero_series load p k /\ has_series p k "rss") /\
  (forall r, r ∈ z -> is_zero_cpu r = true) /\
  NoDup (process_id <$> z).
Proof.
  intros Hg Hz.
  assert (Hel : forall r, r ∈ z <->
            exists k, k ∈ live_pids p (tracking p) /\
                      zero_found load (tracking p) k = true /\
                      r = record_of load p (tracking p) k /\
                      complete r = true).
  { intros r. rewrite (get_zero_elem Track p' z r Hz). split.
    - intros (k & Hk & Hc).
      apply (get_tracking_cache_elem Track load p ret summary p' k r Hg) in Hk
        as (H1 & H2 & H3). by exists k.
    - intros (k & H1 & H2 & H3 & Hc). exists k. split; [|done].
      by apply (get_tracking_cache_elem Track load p ret summary p' k r Hg). }
  split; [|split].
  - intros k. split.
    + intros (r & Hr & Hk). apply Hel in Hr as (k' & H1 & H2 & -> & Hc).
      destruct (record_of_fixed Track load p (tracking p) k') as (Hid & _).
      rewrite Hid in Hk. subst k'.
      apply (elem_of_live_pids Track load) in H1 as [H1 _].
      apply (alive_not_dead Track) in H1.
      apply (zero_found_series Track load) in H2.
      apply complete_both in Hc as [_ Hc].
      by apply (rss_attached Track load) in Hc.
    + intros (Hd & Hzs & Hrss). exists (record_of load p (tracking p) k).
      destruct (record_of_fixed Track load p (tracking p) k) as (Hid & _).
      split; [|done]. apply Hel. exists k.
      split; [by apply (zero_series_live Track load)|].
      split; [by apply (zero_found_series Track load)|]. split; [done|].
      apply complete_both. split.
      * by apply (cpu_attached Track load), (zero_series_has_cpu Track load).
      * by apply (rss_attached Track load).
  - intros r Hr. apply Hel in Hr as (k & _ & H2 & -> & _).
    by rewrite record_of_is_zero.
  - unfold get_zero_cpu_processes in Hz.
    apply sort_by_key_desc_Ok in Hz as [Hperm _]. rewrite Hperm.
    destruct (get_tracking_spec Track load p ret summary p' Hg)
      as (recs & zs & _ & _ & _ & _ & -> & Hnd & _).
    cbn [zero_cpu_processes set_zero_cpu_processes].
    clear Hperm Hel Hg. induction zs as [|k zs IH]; [constructor|].
    apply NoDup_cons in Hnd as [Hk Hnd]. rewrite fmap_cons. cbn [zero_select].
    destruct (complete (record_of load p (tracking p) k)); [|by apply IH].
    rewrite fmap_cons. apply NoDup_cons. split; [|by apply IH].
    destruct (record_of_fixed Track load p (tracking p) k) as (-> & _).
    intros Hin. apply Hk.
    apply list_elem_of_fmap in Hin as (r & -> & Hr).
    apply zero_select_elem in Hr as (k' & Hr & _).
    apply list_elem_of_fmap in Hr as (k'' & [= -> ->] & Hk'').
    by destruct (record_of_fixed Track load p (tracking p) k'') as (-> & _).
Qed.

(** *** The cache does not feed back *)

Lemma live_loop_cache c items ls :
  live_loop load (set_zero_cpu_processes c p) items ls = live_loop load p items ls.
Proof.
  revert ls. induction items as [|[ind t] items IH]; intros ls; [done|].
  cbn [live_loop].
  change (live_item load (set_zero_cpu_processes c p) ind t ls)
    with (live_item load p ind t ls).
  destruct (live_item load p ind t ls) as [ls'|e]; cbn [bind]; [apply IH | done].
Qed.

(** X14.  [get_tracking] does not read [zero_cpu_processes]: whatever the
    cache holds, the call returns the same lists and saves the same cache;
    so calling it again on the model it left gives the same answer and
    leaves the model as it is. *)
Theorem get_tracking_ignores_cache :
  (forall c, get_tracking load (set_zero_cpu_processes c p) = get_tracking load p) /\
  (forall out p', get_tracking load p = Ok (out, p') ->
                  get_tracking load p' = Ok (out, p')).
Proof.
  assert (H : forall c,
             get_tracking load (set_zero_cpu_processes c p) = get_tracking load p).
  { intros c. unfold get_tracking.
    change (tracking (set_zero_cpu_processes c p)) with (tracking p).
    rewrite live_loop_cache.
    destruct (live_loop load p (tracking p) _) as [ls|e]; cbn [bind]; [|done].
    destruct (sort_by_key_desc _ _) as [locs|e]; cbn [bind]; [|done].
    destruct (summary_loop _ _ _) as [[h summ]|e]; cbn [bind]; done. }
  split; [exact H|].
  intros [ret summary] p' Hg.
  destruct (get_tracking_spec Track load p ret summary p' Hg)
    as (recs & zs & _ & _ & _ & _ & Hp' & _).
  rewrite Hp' at 1. rewrite H. by rewrite Hg.
Qed.

(** *** Records of the ranked list *)

(** X15.  The fields of a ranked record.  Every record of the ranked list
    carries the process identifier it is listed under, the [dead] entry of
    the process or 0 (not truthy), its [pids] entry or 0, its [names]
    entry or the empty string, and [is_zero_cpu] unset. *)
Theorem ranked_record_fields ret summary p' r :
  get_tracking load p = Ok ((ret, summary), p') ->
  r ∈ ret ->
  r_dead r = attr_get (dead p) (process_id r) (PNum 0) /\
  truthy (r_dead r) = false /\
  r_pid r = attr_get (pids p) (process_id r) (PNum 0) /\
  r_name r = attr_get (names p) (process_id r) (PStr "") /\
  is_zero_cpu r = false.
Proof.
  intros Hg Hr.
  destruct (get_tracking_ret_elem Track load p ret summary p' r Hg Hr)
    as (k & Hk & Hrk & Hcase).
  apply ranked_complete in Hrk as (Hz & _).
  apply (elem_of_live_pids Track load) in Hk as [Ha _].
  unfold alive in Ha. apply negb_true_iff in Ha.
  destruct (record_of_fixed Track load p (tracking p) k) as (Hid & Hd & Hp & Hn).
  assert (Hfix : process_id r = k /\ r_dead r = attr_get (dead p) k (PNum 0) /\
                 r_pid r = attr_get (pids p) k (PNum 0) /\
                 r_name r = attr_get (names p) k (PStr "") /\
                 is_zero_cpu r = false).
  { destruct Hcase as [->| ->]; [done|].
    unfold named. by destruct (cpu (record_of load p (tracking p) k)). }
  destruct Hfix as (-> & -> & -> & -> & ->). done.
Qed.

(** X16.  The details of a ranked record.  The rss detail of every ranked
    record is the detail of an rss series of its process as loaded.  The
    cpu detail is the detail of a cpu series of its process as loaded,
    with the name of the record attached when the record is among the
    first five, and untouched otherwise. *)
Theorem ranked_record_details ret summary p' :
  get_tracking load p = Ok ((ret, summary), p') ->
  (forall r, r ∈ ret ->
     exists ind t, (ind, t) ∈ tracking p /\ pid_of ind = process_id r /\
                   suffix_of ind = "rss" /\ rss r = Some (detail (load t))) /\
  (forall r, r ∈ take 5 ret ->
     exists ind t, (ind, t) ∈ tracking p /\ pid_of ind = process_id r /\
                   suffix_of ind = "cpu" /\
                   cpu r = Some (set_d_name (r_name r) (detail (load t)))) /\
  (forall r, r ∈ drop 5 ret ->
     exists ind t, (ind, t) ∈ tracking p /\ pid_of ind = process_id r /\
                   suffix_of ind = "cpu" /\ cpu r = Some (detail (load t))).
Proof.
  intros Hg.
  destruct (get_tracking_spec Track load p ret summary p' Hg)
    as (recs & zs & Hperm & _ & Hret & _).
  assert (Hrec : forall r0, r0 ∈ recs ->
    (exists ind t, (ind, t) ∈ tracking p /\ pid_of ind = process_id r0 /\
                   suffix_of ind = "cpu" /\ cpu r0 = Some (detail (load t))) /\
    (exists ind t, (ind, t) ∈ tracking p /\ pid_of ind = process_id r0 /\
                   suffix_of ind = "rss" /\ rss r0 = Some (detail (load t)))).
  { intros r0 H0. rewrite Hperm in H0.
    apply elem_of_ranked_records in H0 as (k & _ & -> & Hr).
    apply ranked_complete in Hr as (_ & Hc & Hs).
    destruct (record_of_fixed Track load p (tracking p) k) as (-> & _).
    pose proof (record_of_cpu Track load p (tracking p) k) as Hcpu.
    pose proof (record_of_rss Track load p (tracking p) k) as Hrss.
    destruct (cpu (record_of load p (tracking p) k)) as [dc|]; [|done].
    destruct (rss (record_of load p (tracking p) k)) as [dr|]; [|done].
    destruct Hcpu as ([i1 t1] & ? & ? & ? & ->).
    destruct Hrss as ([i2 t2] & ? & ? & ? & ->).
    split; [by exists i1, t1 | by exists i2, t2]. }
  assert (Htake : take 5 ret = named <$> take 5 recs).
  { rewrite Hret. destruct (decide (5 <= length recs)) as [Hlen|Hlen].
    - rewrite take_app_le by (rewrite length_fmap, length_take; lia).
      apply take_ge. rewrite length_fmap, length_take. lia.
    - rewrite (drop_ge recs 5) by lia. rewrite app_nil_r.
      apply take_ge. rewrite length_fmap, length_take. lia. }
  assert (Hdrop : drop 5 ret = drop 5 recs).
  { rewrite Hret. destruct (decide (5 <= length recs)) as [Hlen|Hlen].
    - rewrite drop_app_ge by (rewrite length_fmap, length_take; lia).
      rewrite length_fmap, length_take.
      replace (5 - 5 `min` length recs) with 0 by lia. done.
    - rewrite (drop_ge recs 5) by lia. rewrite app_nil_r.
      apply drop_ge. rewrite length_fmap, length_take. lia. }
  assert (Hin5 : forall r0, r0 ∈ take 5 recs -> r0 ∈ recs).
  { intros r0 H0. rewrite <- (take_drop 5 recs). apply elem_of_app. by left. }
  assert (Hin6 : forall r0, r0 ∈ drop 5 recs -> r0 ∈ recs).
  { intros r0 H0. rewrite <- (take_drop 5 recs). apply elem_of_app. by right. }
  split; [|split].
  - intros r Hr. rewrite <- (take_drop 5 ret), Htake, Hdrop in Hr.
    apply elem_of_app in Hr as [Hr|Hr].
    + apply list_elem_of_fmap in Hr as (r0 & -> & H0).
      destruct (Hrec r0 (Hin5 r0 H0)) as [_ H].
      destruct (named_fixed r0) as (-> & _ & -> & _). exact H.
    + by destruct (Hrec r (Hin6 r Hr)) as [_ H].
  - intros r Hr. rewrite Htake in Hr.
    apply list_elem_of_fmap in Hr as (r0 & -> & H0).
    destruct (Hrec r0 (Hin5 r0 H0)) as [(ind & t & H1 & H2 & H3 & H4) _].
    destruct (named_fixed r0) as (-> & _ & _ & -> & -> & _).
    exists ind, t. by rewrite H4.
  - intros r Hr. rewrite Hdrop in Hr.
    by destruct (Hrec r (Hin6 r Hr)) as [H _].
Qed.

(** X17.  A store without live processes.  When every key of the store
    belongs to a process marked dead (in particular when the store is
    empty), [get_tracking] returns two empty lists and saves an empty
    cache. *)
Theorem no_live_process :
  (forall ind t, (ind, t) ∈ tracking p -> marked_dead p (pid_of ind)) ->
  get_tracking load p = Ok (([], []), set_zero_cpu_processes [] p).
Proof.
  intros Hdead.
  assert (Hlive : live_pids p (tracking p) = []).
  { destruct (live_pids p (tracking p)) as [|k ks] eqn:E; [done|].
    assert (Hk : k ∈ live_pids p (tracking p)) by (rewrite E; left).
    apply (elem_of_live_pids Track load) in Hk as (Ha & [ind t] & Hin & <-).
    apply (alive_not_dead Track) in Ha. destruct Ha. by apply (Hdead ind t). }
  assert (Hrr : ranked_records load p = []).
  { unfold ranked_records. by rewrite Hlive. }
  destruct (get_tracking_total Track load p) as [[[ret summary] p'] Hg].
  { rewrite Hrr. constructor. }
  rewrite Hg.
  destruct (get_tracking_spec Track load p ret summary p' Hg)
    as (recs & zs & Hperm & _ & -> & -> & -> & _ & Hzs).
  rewrite Hrr in Hperm. apply Permutation_nil_r in Hperm as ->.
  assert (zs = []) as ->.
  { destruct zs as [|k zs]; [done|].
    assert (Hk : k ∈ k :: zs) by left.
    apply Hzs in Hk as [Hk _]. rewrite Hlive in Hk. inversion Hk. }
  done.
Qed.

(** *** Failure of the live table *)

Lemma get_tracking_Raise_inv e :
  get_tracking load p = Raise e ->
  exists r, r ∈ ranked_records load p /\ last_smoothed_cpu r = Raise e.
Proof.
  destruct (live_loop_total Track load p) as (ls & Hrun & Hinv).
  unfold get_tracking. rewrite Hrun. cbn [bind].
  destruct Hinv as [Hdom Hnd Hlocs Hheap Hzk Hzr Hzd].
  set (ret0 := live_select (heap ls) (res ls)).
  assert (Hret0 : deref (heap ls) <$> ret0 = ranked_records load p).
  { unfold ranked_records. rewrite <- Hdom. apply live_select_deref.
    intros k l H. apply list_lookup_total_correct. by apply Hheap. }
  destruct (sort_by_key_desc _ ret0) as [locs|e'] eqn:Hs; cbn [bind].
  - apply sort_by_key_desc_Ok in Hs as [Hperm _].
    assert (Hnd0 : NoDup ret0).
    { apply live_select_NoDup. rewrite Hlocs. apply NoDup_seq. }
    assert (Hsplit : NoDup (take 5 locs ++ drop 5 locs)).
    { rewrite take_drop. by rewrite Hperm. }
    apply NoDup_app in Hsplit as (Hnd5 & _ & _).
    destruct (summary_loop_spec (take 5 locs) (heap ls) [] Hnd5)
      as (h' & Hsl & _ & _).
    { intros l Hl. apply elem_of_take in Hl as (i & Hi & _).
      apply list_elem_of_lookup_2 in Hi. rewrite Hperm in Hi.
      apply live_select_elem in Hi as (k & Hk & Hr).
      pose proof (Hheap k l Hk) as Hh.
      rewrite (list_lookup_total_correct _ _ _ Hh) in Hr.
      apply ranked_complete in Hr as (_ & Hc & _).
      destruct (cpu (record_of load p (tracking p) k)) as [d|] eqn:Ed; [eauto | done]. }
    rewrite Hsl. cbn [bind]. discriminate.
  - intros [= <-]. apply sort_by_key_desc_Raise_inv in Hs as (l & Hl & Hkey).
    exists (deref (heap ls) l). split; [|exact Hkey].
    rewrite <- Hret0. apply list_elem_of_fmap. by exists l.
Qed.

Lemma get_tracking_Raise_IndexError e :
  get_tracking load p = Raise e -> e = IndexError.
Proof.
  intros Hg. apply get_tracking_Raise_inv in Hg as (r & Hr & Hkey).
  apply elem_of_ranked_records in Hr as (k & _ & -> & Hrk).
  apply ranked_complete in Hrk as (_ & Hc & _).
  unfold last_smoothed_cpu in Hkey.
  destruct (cpu (record_of load p (tracking p) k)) as [d|]; [|done].
  destruct (smoothed d); [|discriminate]. by injection Hkey as <-.
Qed.

(** X18.  [get_tracking] fails in one way only: with [IndexError], on a
    process that is not marked dead, has an rss series and no cpu series
    with a mean below [ALMOST_ZERO], and has a cpu series whose smoothed
    sequence is empty. *)
Theorem live_table_failure e :
  get_tracking load p = Raise e ->
  e = IndexError /\
  exists k ind t,
    ~ marked_dead p k /\ ~ zero_series load p k /\ has_series p k "rss" /\
    (ind, t) ∈ tracking p /\ pid_of ind = k /\ suffix_of ind = "cpu" /\
    smoothed (detail (load t)) = [].
Proof.
  intros Hg. apply get_tracking_Raise_inv in Hg as (r & Hr & Hkey).
  apply elem_of_ranked_records in Hr as (k & Hk & -> & Hrk).
  destruct (proj1 (qualifies_iff k) (conj Hk Hrk)) as (Hd & _ & Hrss & Hz).
  pose proof (record_of_cpu Track load p (tracking p) k) as Hcpu.
  apply ranked_complete in Hrk as (_ & Hc & _).
  unfold last_smoothed_cpu in Hkey.
  destruct (cpu (record_of load p (tracking p) k)) as [d|]; [|done].
  destruct Hcpu as ([ind t] & Hin & Hpid & Hs & ->). cbn [fst snd] in *.
  destruct (smoothed (detail (load t))) eqn:Esm; [|discriminate].
  injection Hkey as <-. split; [done|]. by exists k, ind, t.
Qed.

Lemma dict_elem_unique {V} (d : list (string * V)) k v v' :
  NoDup d.*1 -> (k, v) ∈ d -> (k, v') ∈ d -> v = v'.
Proof.
  intros Hnd H1 H2.
  apply (elem_dict_get d k v Hnd) in H1. apply (elem_dict_get d k v' Hnd) in H2.
  congruence.
Qed.

(** X19.  Conversely, on a store with distinct keys: a process with a
    non-empty identifier that is not marked dead, has an rss series, and
    whose cpu series has a mean not below [ALMOST_ZERO] and an empty
    smoothed sequence, makes [get_tracking] raise [IndexError]. *)
Theorem live_table_fails k t :
  NoDup (tracking p).*1 -> k <> "" ->
  ~ marked_dead p k -> has_series p k "rss" ->
  (k +:+ String dot "cpu", t) ∈ tracking p ->
  ~ (summary_mean (load t) < ALMOST_ZERO)%Q ->
  smoothed (detail (load t)) = [] ->
  get_tracking load p = Raise IndexError.
Proof.
  intros Hnd Hk Hd Hrss Hin Hmean Hsm.
  destruct (key_segments k "cpu" eq_refl) as [Hpid Hsuf].
  fold (pid_of (k +:+ String dot "cpu")) in Hpid.
  fold (suffix_of (k +:+ String dot "cpu")) in Hsuf.
  assert (Huniq : forall ind t', (ind, t') ∈ tracking p -> pid_of ind = k ->
                    suffix_of ind = "cpu" -> t' = t).
  { intros ind t' Hin' Hp Hs.
    assert (ind = k +:+ String dot "cpu") as ->.
    { rewrite (key_of_parts ind) by congruence. by rewrite Hp, Hs. }
    by apply (dict_elem_unique (tracking p) (k +:+ String dot "cpu") t' t Hnd). }
  assert (Hcpu : has_series p k "cpu") by (by exists (k +:+ String dot "cpu"), t).
  assert (Hz : ~ zero_series load p k).
  { intros (ind & t' & Hin' & Hp & Hs & Hlt).
    rewrite (Huniq ind t' Hin' Hp Hs) in Hlt. done. }
  destruct (proj2 (qualifies_iff k)) as [Hlive Hr]; [done|].
  assert (Hkey : last_smoothed_cpu (record_of load p (tracking p) k)
                 = Raise IndexError).
  { pose proof (record_of_cpu Track load p (tracking p) k) as Hc.
    unfold last_smoothed_cpu.
    apply ranked_complete in Hr as (_ & Hcr & _).
    destruct (cpu (record_of load p (tracking p) k)) as [d|]; [|done].
    destruct Hc as ([ind t'] & Hin' & Hp & Hs & ->). cbn [fst snd] in *.
    by rewrite (Huniq ind t' Hin' Hp Hs), Hsm. }
  destruct (get_tracking_raises Track load p _ _
              (proj2 (elem_of_ranked_records Track load p _)
                     (ex_intro _ k (conj Hlive (conj eq_refl Hr)))) Hkey)
    as [e He].
  rewrite He. f_equal. by apply get_tracking_Raise_IndexError.
Qed.
End LiveMore.

(** ** Further properties of the zero-cpu table *)

Section ZeroMore.
Variable Track : Type.
Variable q : ProcessModel Track.



(** X24.  [get_zero_cpu_processes] fails in one way only: with
    [IndexError], exactly when some cache entry with both details has an
    empty smoothed cpu sequence. *)
Theorem zero_table_failure e :
  get_zero_cpu_processes q = Raise e <->
  e = IndexError /\
  exists k r d, (k, r) ∈ zero_cpu_processes q /\ cpu r = Some d /\
                rss r <> None /\ smoothed d = [].
Proof.
  unfold get_zero_cpu_processes. split.
  - intros Hs. apply sort_by_key_desc_Raise_inv in Hs as (r & Hr & Hkey).
    apply zero_select_elem in Hr as (k & Hk & Hc).
    apply complete_both in Hc as [Hc Hrss].
    unfold last_smoothed_cpu in Hkey.
    destruct (cpu r) as [d|] eqn:Ed; [|done].
    destruct (smoothed d) eqn:Esm; [|discriminate].
    injection Hkey as <-. split; [done|]. by exists k, r, d.
  - intros (-> & k & r & d & Hk & Hd & Hrss & Hsm).
    assert (Hr : r ∈ zero_select (zero_cpu_processes q)).
    { apply zero_select_elem. exists k. split; [done|].
      apply complete_both. by rewrite Hd. }
    assert (Hkey : last_smoothed_cpu r = Raise IndexError).
    { unfold last_smoothed_cpu. by rewrite Hd, Hsm. }
    destruct (sort_by_key_desc_Raise last_smoothed_cpu _ r IndexError Hr Hkey)
      as [e' He'].
    rewrite He'. f_equal.
    apply sort_by_key_desc_Raise_inv in He' as (r' & Hr' & Hkey').
    apply zero_select_elem in Hr' as (k' & _ & Hc').
    apply complete_both in Hc' as [Hc' _].
    unfold last_smoothed_cpu in Hkey'.
    destruct (cpu r') as [d'|]; [|done].
    destruct (smoothed d'); [|discriminate]. by injection Hkey' as <-.
Qed.
End ZeroMore.

(** ** The further properties on the sample inputs *)

Ltac distinct_keys :=
  repeat (apply NoDup_cons; split;
          [rewrite ?not_elem_of_cons; repeat split;
           first [discriminate | apply not_elem_of_nil]|]);
  apply NoDup_nil_2.

Lemma static_sample_captured_witness :
  exists p' m',
    track_item Sample.PROCESS "process.1.name" (Sample.sample (PStr "first"))
      (defaults (Track := Series), []) = Ok (p', []) /\
    static_map (suffix_of "process.1.name") p' = Some m' /\
    m' !! pid_of "process.1.name"
    = Some (default (PStr "first") ((∅ : gmap string pyval) !! pid_of "process.1.name")) /\
    (forall k, k <> pid_of "process.1.name" ->
               m' !! k = (∅ : gmap string pyval) !! k).
Proof.
  apply (static_sample_captured Sample.PROCESS Series "process.1.name"
           (Sample.sample (PStr "first")) defaults [] ∅ (PStr "first") []);
    reflexivity.
Defined.

Lemma track_forwards_exactly_witness :
  tracking (fst (track Sample.PROCESS Sample.series_track
                   (defaults (Track := Series)) Probe.batch))
  = Sample.series_track []
      [("process.1.cpu", Sample.sample (PNum 3));
       ("process.1.ppid", Sample.sample (PNum 1))].
Proof.
  apply (track_forwards_exactly Sample.PROCESS Series Sample.series_track
           defaults Probe.batch).
  - distinct_keys.
  - vm_compute. reflexivity.
Defined.

Lemma ppid_sample_forwarded_witness :
  exists p',
    track_item Sample.PROCESS "process.1.ppid" (Sample.sample (PNum 1))
      (defaults (Track := Series), [])
    = Ok (p', dict_set "process.1.ppid" (Sample.sample (PNum 1)) []) /\
    static_maps p' = static_maps (defaults (Track := Series)).
Proof.
  apply (ppid_sample_forwarded Sample.PROCESS Series); reflexivity.
Defined.

Lemma gpu_sample_registered_witness :
  exists p',
    track_item Sample.PROCESS "process.9.gpu.0.mem" (Sample.sample (PNum 1))
      (defaults (Track := Series), [])
    = Ok (p', dict_set "process.9.gpu.0.mem" (Sample.sample (PNum 1)) []) /\
    gpu_processes p' !! "process.9" = Some (∅ ∪ {[ "gpu.0" ]}).
Proof.
  destruct (gpu_sample_registered Sample.PROCESS Series "process.9.gpu.0.mem"
              (Sample.sample (PNum 1)) defaults [])
    as (p' & H1 & H2 & _); [reflexivity | reflexivity |].
  exists p'. split; [exact H1 | exact H2].
Defined.

Lemma gpu_sets_grow_witness :
  exists set',
    gpu_processes (fst (track Sample.PROCESS Sample.series_track
                          Probe.gpu_session Probe.batch)) !! "process.9"
    = Some set' /\
    ({[ "gpu.0" ]} : gset string) ⊆ set'.
Proof.
  apply (gpu_sets_grow Sample.PROCESS Series Sample.series_track
           Probe.gpu_session Probe.batch "process.9" {[ "gpu.0" ]}).
  reflexivity.
Defined.

Lemma key_decodes_witness :
  pid_of "process.1.cpu" = "process.1" /\ suffix_of "process.1.cpu" = "cpu".
Proof. apply (key_decodes "process.1" "cpu"). reflexivity. Defined.

Lemma key_encodes_witness :
  "process.1.cpu" = pid_of "process.1.cpu" +:+ String dot (suffix_of "process.1.cpu").
Proof.
  destruct (key_encodes "process.1.cpu") as [H _]; [|exact H].
  vm_compute. discriminate.
Defined.

Lemma detail_lists_series_witness :
  set_d_name (PStr "cpu") (detail (Sample.load (Sample.ser 1 [1; 2]%Q)))
  ∈ pd_series Probe.detail1 /\
  length (pd_series Probe.detail1) <= 6 + size (∅ : gset string).
Proof.
  destruct (detail_lists_series Series Sample.load Sample.track_truthy
              Sample.session "process.1" Probe.detail1)
    as (H1 & _ & H3); [vm_compute; reflexivity|].
  split; [|exact H3].
  apply (H1 "cpu" (Sample.ser 1 [1; 2]%Q)); [pick_item | reflexivity..].
Defined.

Lemma ranked_membership_witness :
  (exists r, r ∈ Sample.session_ret /\ process_id r = "process.4") <->
  ~ marked_dead Sample.session "process.4" /\
  has_series Sample.session "process.4" "cpu" /\
  has_series Sample.session "process.4" "rss" /\
  ~ zero_series Sample.load Sample.session "process.4".
Proof.
  apply (ranked_membership Series Sample.load Sample.session
           Sample.session_ret Sample.session_summary Sample.session_after).
  exact session_runs.
Defined.

Lemma ranked_once_witness : NoDup (process_id <$> Sample.session_ret).
Proof.
  apply (ranked_once Series Sample.load Sample.session
           Sample.session_ret Sample.session_summary Sample.session_after).
  exact session_runs.
Defined.

Lemma zero_table_membership_witness :
  ((exists r, r ∈ Sample.session_zero /\ process_id r = "process.6") <->
   ~ marked_dead Sample.session "process.6" /\
   zero_series Sample.load Sample.session "process.6" /\
   has_series Sample.session "process.6" "rss") /\
  NoDup (process_id <$> Sample.session_zero).
Proof.
  destruct (zero_table_membership Series Sample.load Sample.session
              Sample.session_ret Sample.session_summary Sample.session_after
              Sample.session_zero session_runs session_zero_runs)
    as (H1 & _ & H3).
  split; [exact (H1 "process.6") | exact H3].
Defined.

Lemma ranked_record_fields_witness :
  r_dead Probe.ranked1
  = attr_get (dead Sample.session) (process_id Probe.ranked1) (PNum 0) /\
  truthy (r_dead Probe.ranked1) = false /\
  r_pid Probe.ranked1
  = attr_get (pids Sample.session) (process_id Probe.ranked1) (PNum 0) /\
  r_name Probe.ranked1
  = attr_get (names Sample.session) (process_id Probe.ranked1) (PStr "") /\
  is_zero_cpu Probe.ranked1 = false.
Proof.
  apply (ranked_record_fields Series Sample.load Sample.session
           Sample.session_ret Sample.session_summary Sample.session_after).
  - exact session_runs.
  - apply list_elem_of_In. vm_compute.
    repeat (first [left; reflexivity | right]).
Defined.

Lemma ranked_record_details_witness :
  exists ind t,
    (ind, t) ∈ tracking Sample.session /\ pid_of ind = process_id Probe.ranked1 /\
    suffix_of ind = "rss" /\ rss Probe.ranked1 = Some (detail (Sample.load t)).
Proof.
  destruct (ranked_record_details Series Sample.load Sample.session
              Sample.session_ret Sample.session_summary Sample.session_after
              session_runs) as (H & _).
  apply H. apply list_elem_of_In. vm_compute.
  repeat (first [left; reflexivity | right]).
Defined.

Lemma no_live_process_witness :
  get_tracking Sample.load Probe.graveyard
  = Ok (([], []), set_zero_cpu_processes [] Probe.graveyard).
Proof.
  apply (no_live_process Series Sample.load Probe.graveyard).
  intros ind t Hin. exists (PNum 1).
  apply elem_of_cons in Hin as [Hin|Hin];
    [|apply list_elem_of_singleton in Hin];
    injection Hin as -> ->; split; vm_compute; reflexivity.
Defined.

Lemma live_table_failure_witness :
  IndexError = IndexError /\
  exists k ind t,
    ~ marked_dead Sample.hollow k /\ ~ zero_series Sample.load Sample.hollow k /\
    has_series Sample.hollow k "rss" /\
    (ind, t) ∈ tracking Sample.hollow /\ pid_of ind = k /\
    suffix_of ind = "cpu" /\ smoothed (detail (Sample.load t)) = [].
Proof.
  apply (live_table_failure Series Sample.load Sample.hollow IndexError).
  vm_compute. reflexivity.
Defined.

Lemma live_table_fails_witness :
  get_tracking Sample.load Sample.hollow = Raise IndexError.
Proof.
  apply (live_table_fails Series Sample.load Sample.hollow "process.1"
           (Sample.ser 1 [])).
  - distinct_keys.
  - discriminate.
  - intros (v & Hv & _). vm_compute in Hv. discriminate.
  - exists "process.1.rss", (Sample.ser 1 [1%Q]).
    split; [pick_item|]. split; reflexivity.
  - pick_item.
  - vm_compute. discriminate.
  - reflexivity.
Defined.

Lemma live_detail_agree_witness :
  exists d c x,
    get_process Sample.load Sample.track_truthy Sample.session
      (process_id Probe.ranked1) = Ok d /\
    cpu Probe.ranked1 = Some c /\
    x ∈ pd_series d /\
    d_name x = Some (PStr "cpu") /\
    smoothed x = smoothed c.
Proof.
  apply (live_detail_agree Series Sample.load Sample.track_truthy Sample.session
           Sample.session_ret Sample.session_summary Sample.session_after
           Probe.ranked1 (PStr "python")).
  - distinct_keys.
  - reflexivity.
  - exact session_runs.
  - apply list_elem_of_In. vm_compute.
    repeat (first [left; reflexivity | right]).
  - vm_compute. discriminate.
  - vm_compute. reflexivity.
Defined.

Lemma name_persists_witness :
  exists d,
    get_process Sample.load Sample.track_truthy
      (fst (track Sample.PROCESS Sample.series_track Sample.session Probe.batch))
      "process.1" = Ok d /\
    pd_name d = PStr "python".
Proof.
  apply (name_persists Series Sample.load Sample.track_truthy Sample.PROCESS
           Sample.series_track Sample.session Probe.batch "process.1"
           (PStr "python")).
  vm_compute. reflexivity.
Defined.

Lemma gpu_series_listed_witness :
  exists d,
    get_process Sample.load Sample.track_truthy Probe.gpu_session
      (join_dot (slice 0 2 (split_dot "process.9.gpu.0.mem"))) = Ok d /\
    set_d_name
      (PStr (join_dot (slice 2 4 (split_dot "process.9.gpu.0.mem")) +:+ ".mem"))
      (detail (Sample.load (Sample.ser 1 [1%Q]))) ∈ pd_series d.
Proof.
  apply (gpu_series_listed Series Sample.load Sample.track_truthy
           Probe.gpu_session "process.9.gpu.0.mem" (Sample.ser 1 [1%Q])
           (PStr "train")).
  - reflexivity.
  - reflexivity.
  - vm_compute. reflexivity.
  - vm_compute. reflexivity.
  - reflexivity.
  - reflexivity.
Defined.


Lemma liveness_frozen_witness :
  dead (fst (track Sample.PROCESS Sample.series_track Sample.session
               [("process.3.dead", Sample.sample (PNum 0))])) !! "process.3"
  = Some (PNum 1) /\
  (marked_dead (fst (track Sample.PROCESS Sample.series_track Sample.session
                       [("process.3.dead", Sample.sample (PNum 0))])) "process.3"
   <-> truthy (PNum 1) = true).
Proof.
  apply (liveness_frozen Sample.PROCESS Series Sample.series_track Sample.session
           [("process.3.dead", Sample.sample (PNum 0))] "process.3" (PNum 1)).
  vm_compute. reflexivity.
Defined.
